(** * The to-do store of the SoftMind assessment app, embedded in Rocq

    The development follows the TypeScript sources:
    - [store/todo-slice.ts]: the [Todo] entity, the [TodoState] aggregate and
      the reducers of the slice;
    - [services/todo-api.ts]: [fetchTodos], the mapping of remote records;
    - [screens/todo-list-screen.tsx]: the derived view's filter and the
      [handleFetchTodos] callback;
    - [components/todo-form.tsx]: the form's [handleSubmit] time format.

    A JS array is a [list], indexed with stdpp's lookup and insert; the
    [Map] built by [mergeTodos] is a [gmap] keyed by strings; a reducer
    written against an Immer draft is a function from state to state. *)

From stdpp Require Import gmap strings list fin_maps pretty.
From Stdlib Require Import ZArith Ascii.

Local Open Scope string_scope.
Local Open Scope list_scope.

(** ** Data model (todo-slice.ts) *)

Record Todo : Type := mkTodo {
  id : string;
  name : string;
  description : string;
  dueDate : string;
  dueTime : string;
  completed : bool
}.

Inductive SortOption : Type := by_name | by_date | by_time.
Inductive SortOrder : Type := asc | desc.

Record TodoState : Type := mkTodoState {
  todos : list Todo;
  searchQuery : string;
  sortBy : SortOption;
  sortOrder : SortOrder;
  isLoading : bool;
  error : option string
}.

Definition initialState : TodoState :=
  {| todos := []; searchQuery := ""; sortBy := by_date; sortOrder := asc;
     isLoading := false; error := None |}.

(** Field assignments on the draft state. *)
Definition set_todos (l : list Todo) (s : TodoState) : TodoState :=
  {| todos := l; searchQuery := searchQuery s; sortBy := sortBy s;
     sortOrder := sortOrder s; isLoading := isLoading s; error := error s |}.

Definition set_completed (b : bool) (t : Todo) : Todo :=
  {| id := id t; name := name t; description := description t;
     dueDate := dueDate t; dueTime := dueTime t; completed := b |}.

(** The ids of a collection, in order. *)
Definition ids (l : list Todo) : list string := id <$> l.

(** ** The JS built-ins the reducers call *)

(** [Array.prototype.findIndex]: the index of the first element that
    satisfies the predicate, [-1] when there is none. *)
Definition findIndex {A} (P : A → Prop) `{∀ x, Decision (P x)}
    (l : list A) : Z :=
  match list_find P l with
  | Some (i, _) => Z.of_nat i
  | None => (-1)%Z
  end.

(** [Array.prototype.find]: the first element that satisfies the predicate.
    The element is a reference into the array, so it comes with its
    position. *)
Definition find {A} (P : A → Prop) `{∀ x, Decision (P x)}
    (l : list A) : option (nat * A) :=
  list_find P l.

(** [new Map(entries)]: entries are set from left to right, a later entry
    for a key replaces an earlier one. *)
Definition new_Map (entries : list (string * Todo)) : gmap string Todo :=
  foldl (λ m e, <[e.1 := e.2]> m) ∅ entries.

(** [Map.prototype.has]. *)
Definition Map_has (m : gmap string Todo) (k : string) : bool :=
  bool_decide (is_Some (m !! k)).

(** ** Reducers (todo-slice.ts) *)

Definition addTodo (state : TodoState) (payload : Todo) : TodoState :=
  set_todos (todos state ++ [payload]) state.

Definition updateTodo (state : TodoState) (payload : Todo) : TodoState :=
  let index := findIndex (λ todo, id todo = id payload) (todos state) in
  if negb (index =? -1)%Z
  then set_todos (<[Z.to_nat index := payload]> (todos state)) state
  else state.

Definition deleteTodo (state : TodoState) (payload : string) : TodoState :=
  set_todos (filter (λ todo, id todo ≠ payload) (todos state)) state.

Definition toggleTodo (state : TodoState) (payload : string) : TodoState :=
  match find (λ todo, id todo = payload) (todos state) with
  | Some (k, todo) =>
      set_todos (<[k := set_completed (negb (completed todo)) todo]>
                   (todos state)) state
  | None => state
  end.

Definition setSearchQuery (state : TodoState) (payload : string) : TodoState :=
  {| todos := todos state; searchQuery := payload; sortBy := sortBy state;
     sortOrder := sortOrder state; isLoading := isLoading state;
     error := error state |}.

Definition setSortBy (state : TodoState) (payload : SortOption) : TodoState :=
  {| todos := todos state; searchQuery := searchQuery state; sortBy := payload;
     sortOrder := sortOrder state; isLoading := isLoading state;
     error := error state |}.

Definition setSortOrder (state : TodoState) (payload : SortOrder) : TodoState :=
  {| todos := todos state; searchQuery := searchQuery state;
     sortBy := sortBy state; sortOrder := payload;
     isLoading := isLoading state; error := error state |}.

Definition setTodos (state : TodoState) (payload : list Todo) : TodoState :=
  set_todos payload state.

Definition mergeTodos (state : TodoState) (payload : list Todo) : TodoState :=
  let existingTodosMap :=
    new_Map ((λ todo, (id todo, todo)) <$> todos state) in
  set_todos
    (foldl (λ acc newTodo,
              if negb (Map_has existingTodosMap (id newTodo))
              then acc ++ [newTodo] else acc)
           (todos state) payload)
    state.

Definition setLoading (state : TodoState) (payload : bool) : TodoState :=
  {| todos := todos state; searchQuery := searchQuery state;
     sortBy := sortBy state; sortOrder := sortOrder state;
     isLoading := payload; error := error state |}.

Definition setError (state : TodoState) (payload : option string) : TodoState :=
  {| todos := todos state; searchQuery := searchQuery state;
     sortBy := sortBy state; sortOrder := sortOrder state;
     isLoading := isLoading state; error := payload |}.

(** The actions of the slice and the reducer that dispatches on them. *)
Inductive Action : Type :=
  | AddTodo (t : Todo)
  | UpdateTodo (t : Todo)
  | DeleteTodo (i : string)
  | ToggleTodo (i : string)
  | SetSearchQuery (q : string)
  | SetSortBy (f : SortOption)
  | SetSortOrder (o : SortOrder)
  | SetTodos (l : list Todo)
  | MergeTodos (l : list Todo)
  | SetLoading (b : bool)
  | SetError (e : option string).

Definition reducer (state : TodoState) (a : Action) : TodoState :=
  match a with
  | AddTodo t => addTodo state t
  | UpdateTodo t => updateTodo state t
  | DeleteTodo i => deleteTodo state i
  | ToggleTodo i => toggleTodo state i
  | SetSearchQuery q => setSearchQuery state q
  | SetSortBy f => setSortBy state f
  | SetSortOrder o => setSortOrder state o
  | SetTodos l => setTodos state l
  | MergeTodos l => mergeTodos state l
  | SetLoading b => setLoading state b
  | SetError e => setError state e
  end.

(** Dispatching a sequence of actions, one after the other. *)
Definition dispatchAll (state : TodoState) (acts : list Action) : TodoState :=
  foldl reducer state acts.

(** ** The derived view's filter step (todo-list-screen.tsx)

    [String.prototype.toLowerCase] follows the Unicode case tables, which are
    no part of the repository: the view takes it as a parameter.
    [ascii_toLowerCase] is its restriction to ASCII strings. *)

(** [String.prototype.includes]: does [sub] occur in [s] as a contiguous
    run of characters? *)
Fixpoint includes (s sub : string) : bool :=
  String.prefix sub s ||
  match s with
  | EmptyString => false
  | String _ rest => includes rest sub
  end.

Definition ascii_lower (c : ascii) : ascii :=
  let n := N_of_ascii c in
  if ((65 <=? n) && (n <=? 90))%N then ascii_of_N (n + 32) else c.

Fixpoint ascii_toLowerCase (s : string) : string :=
  match s with
  | EmptyString => EmptyString
  | String c rest => String (ascii_lower c) (ascii_toLowerCase rest)
  end.

Section View.
Variable toLowerCase : string → string.

(** The predicate handed to [todos.filter]. *)
Definition matchesQuery (searchQueryLower : string) (todo : Todo) : bool :=
  includes (toLowerCase (name todo)) searchQueryLower
  || includes (toLowerCase (description todo)) searchQueryLower
  || includes (toLowerCase (dueDate todo)) searchQueryLower
  || includes (toLowerCase (dueTime todo)) searchQueryLower.

Definition filteredTodos (todos : list Todo) (searchQuery : string)
    : list Todo :=
  let searchQueryLower := toLowerCase searchQuery in
  List.filter (matchesQuery searchQueryLower) todos.
End View.

(** What the specification calls a case-insensitive substring: the
    lower-cased field is some prefix, then the lower-cased query, then some
    suffix. *)
Definition containsCI (toLowerCase : string → string)
    (field query : string) : Prop :=
  ∃ before after : string,
    toLowerCase field = before +:+ toLowerCase query +:+ after.

(** An entity matches a query when one of its four text fields contains
    it in that sense. *)
Definition matchesCI (toLowerCase : string → string) (query : string)
    (t : Todo) : Prop :=
  containsCI toLowerCase (name t) query
  ∨ containsCI toLowerCase (description t) query
  ∨ containsCI toLowerCase (dueDate t) query
  ∨ containsCI toLowerCase (dueTime t) query.

(** ** The callback [handleFetchTodos] (todo-list-screen.tsx)

    The callback runs against the store through [dispatch]; a computation
    ends with a value or with a thrown value. [dispatched] records the
    callback's own dispatches in order. *)

Inductive Thrown : Type :=
  | ErrorObject (message : string)   (* err instanceof Error *)
  | OtherThrown.

Record World : Type := mkWorld {
  store : TodoState;
  dispatched : list Action
}.

Definition Eff (A : Type) : Type := World → World * (Thrown + A).

Global Instance Eff_ret : MRet Eff := λ A a w, (w, inr a).

Global Instance Eff_bind : MBind Eff := λ A B k m w,
  match m w with
  | (w', inl e) => (w', inl e)
  | (w', inr a) => k a w'
  end.

Definition dispatch (a : Action) : Eff unit := λ w,
  ({| store := reducer (store w) a; dispatched := dispatched w ++ [a] |},
   inr tt).

(** [await p]: the callback is suspended until [p] settles; meanwhile the
    store serves the actions [env] that the rest of the application
    dispatches. *)
Definition await {A} (env : list Action) (settled : Thrown + A) : Eff A :=
  λ w, ({| store := dispatchAll (store w) env; dispatched := dispatched w |},
        settled).

(** [try { body } catch (err) { handler } finally { final }]. *)
Definition try_catch_finally {A} (body : Eff A) (handler : Thrown → Eff A)
    (final : Eff unit) : Eff A := λ w,
  let '(w1, r1) :=
    match body w with
    | (w', inl err) => handler err w'
    | (w', inr a) => (w', inr a)
    end in
  match final w1 with
  | (w2, inl e) => (w2, inl e)
  | (w2, inr _) => (w2, r1)
  end.

(** [err instanceof Error ? err.message : 'Failed to fetch todos'] *)
Definition failureMessage (err : Thrown) : string :=
  match err with
  | ErrorObject message => message
  | OtherThrown => "Failed to fetch todos"
  end.

Definition handleFetchTodos (env : list Action)
    (fetched : Thrown + list Todo) : Eff unit :=
  try_catch_finally
    (dispatch (SetLoading true);;
     dispatch (SetError None);;
     fetchedTodos ← await env fetched;
     dispatch (MergeTodos fetchedTodos))
    (λ err, dispatch (SetError (Some (failureMessage err))))
    (dispatch (SetLoading false)).

(** The dispatches that clear the loading flag. *)
Definition clearsLoading (a : Action) : bool :=
  match a with
  | SetLoading false => true
  | _ => false
  end.

(** One press of the fetch button on a store [s]. *)
Definition runFetch (env : list Action) (fetched : Thrown + list Todo)
    (s : TodoState) : World * (Thrown + unit) :=
  handleFetchTodos env fetched {| store := s; dispatched := [] |}.

(** ** The remote adapter (todo-api.ts) *)

Module Api.
(** A record of the remote endpoint. *)
Record ApiTodo : Type := mkApiTodo {
  userId : Z;
  id : Z;
  title : string;
  completed : bool
}.
End Api.

(** [Number.prototype.toString] on an integer (of magnitude below 10^21,
    where JS switches to the exponent form): its decimal numeral, with a
    leading minus sign below zero. *)
Definition Number_toString (n : Z) : string := pretty n.

(** [s.split(sep)[0]] for a one-character separator: the part of [s] before
    the first [sep], all of [s] when there is none. *)
Fixpoint split_head (sep : ascii) (s : string) : string :=
  match s with
  | EmptyString => EmptyString
  | String c rest =>
      if Ascii.eqb c sep then EmptyString else String c (split_head sep rest)
  end.

(** *** Time values: milliseconds since the epoch, as ECMAScript defines
    the calendar fields of a Date in UTC. *)

Section DateFields.
Local Open Scope Z_scope.

Definition msPerDay : Z := 86400000.
Definition Day (t : Z) : Z := t / msPerDay.

Definition DaysInYear (y : Z) : Z :=
  if negb (y mod 4 =? 0) then 365
  else if negb (y mod 100 =? 0) then 366
  else if negb (y mod 400 =? 0) then 365
  else 366.

Definition DayFromYear (y : Z) : Z :=
  365 * (y - 1970) + (y - 1969) / 4 - (y - 1901) / 100 + (y - 1601) / 400.

(** The largest [y] with [DayFromYear y <= Day t]: an estimate from the
    mean length of a year, moved by one year where it is off. *)
Definition YearFromTime (t : Z) : Z :=
  let y0 := 1970 + Day t * 400 / 146097 in
  if Day t <? DayFromYear y0 then y0 - 1
  else if DayFromYear (y0 + 1) <=? Day t then y0 + 1
  else y0.

Definition DayWithinYear (t : Z) : Z := Day t - DayFromYear (YearFromTime t).
Definition InLeapYear (t : Z) : Z := DaysInYear (YearFromTime t) - 365.

(** Months are numbered from 0, as in ECMAScript. *)
Definition MonthFromTime (t : Z) : Z :=
  let d := DayWithinYear t in
  let leap := InLeapYear t in
  if d <? 31 then 0
  else if d <? 59 + leap then 1
  else if d <? 90 + leap then 2
  else if d <? 120 + leap then 3
  else if d <? 151 + leap then 4
  else if d <? 181 + leap then 5
  else if d <? 212 + leap then 6
  else if d <? 243 + leap then 7
  else if d <? 273 + leap then 8
  else if d <? 304 + leap then 9
  else if d <? 334 + leap then 10
  else 11.

Definition DateFromTime (t : Z) : Z :=
  let d := DayWithinYear t in
  let leap := InLeapYear t in
  match MonthFromTime t with
  | 0 => d + 1
  | 1 => d - 30
  | 2 => d - 58 - leap
  | 3 => d - 89 - leap
  | 4 => d - 119 - leap
  | 5 => d - 150 - leap
  | 6 => d - 180 - leap
  | 7 => d - 211 - leap
  | 8 => d - 242 - leap
  | 9 => d - 272 - leap
  | 10 => d - 303 - leap
  | _ => d - 333 - leap
  end.

Definition HourFromTime (t : Z) : Z := (t / 3600000) mod 24.
Definition MinFromTime (t : Z) : Z := (t / 60000) mod 60.
Definition SecFromTime (t : Z) : Z := (t / 1000) mod 60.
Definition msFromTime (t : Z) : Z := t mod 1000.

(** Decimal digits, fixed width. *)
Definition digit (n : Z) : ascii := ascii_of_N (48 + Z.to_N (n mod 10)).

Fixpoint digits (width : nat) (n : Z) (acc : string) : string :=
  match width with
  | O => acc
  | S w => digits w (n / 10) (String (digit n) acc)
  end.

Definition pad (width : nat) (n : Z) : string := digits width n "".

(** The calendar date of [Date.prototype.toISOString]: four digits for
    the years 0 to 9999, a sign and six digits for the others. *)
Definition isoYear (y : Z) : string :=
  if (0 <=? y) && (y <=? 9999) then pad 4 y
  else if y <? 0 then "-" +:+ pad 6 (- y)
  else "+" +:+ pad 6 y.

Definition isoDate (t : Z) : string :=
  isoYear (YearFromTime t) +:+ "-" +:+ pad 2 (MonthFromTime t + 1)
    +:+ "-" +:+ pad 2 (DateFromTime t).

Definition isoTime (t : Z) : string :=
  pad 2 (HourFromTime t) +:+ ":" +:+ pad 2 (MinFromTime t) +:+ ":"
    +:+ pad 2 (SecFromTime t) +:+ "." +:+ pad 3 (msFromTime t).

(** [Date.prototype.toISOString]: [YYYY-MM-DDTHH:mm:ss.sssZ]. *)
Definition toISOString (t : Z) : string :=
  isoDate t +:+ "T" +:+ isoTime t +:+ "Z".

(** [Date.prototype.toTimeString] of a Date whose local time of day is
    [h:m:s], in a time zone that prints as [zone]:
    [HH:MM:SS GMT+hhmm (name)]. *)
Definition toTimeString (h m s : Z) (zone : string) : string :=
  pad 2 h +:+ ":" +:+ pad 2 m +:+ ":" +:+ pad 2 s +:+ " " +:+ zone.
End DateFields.

(** [fetchTodos]: [response] is how [axios.get] settles; every record is
    mapped with a fresh reading of the clock, [clock k] for the record at
    index [k]. A failure is logged and thrown again. *)
Definition fetchTodos (clock : nat → Z) (response : Thrown + list Api.ApiTodo)
    : Thrown + list Todo :=
  match response with
  | inr data =>
      inr (imap (λ k todo,
                   {| id := Number_toString (Api.id todo);
                      name := Api.title todo;
                      description := "";
                      dueDate := split_head "T" (toISOString (clock k));
                      dueTime := "00:00";
                      completed := Api.completed todo |}) data)
  | inl error => inl error
  end.

(** The [dueTime] that the form's [handleSubmit] stores (todo-form.tsx):
    [time.toTimeString().split(' ')[0]]. *)
Definition formDueTime (h m s : Z) (zone : string) : string :=
  split_head " " (toTimeString h m s zone).

(** *** The shapes of the date and time strings *)

Definition isDigit (c : ascii) : bool :=
  let n := N_of_ascii c in ((48 <=? n) && (n <=? 57))%N.

(** [HH:MM:SS] *)
Definition is_HH_MM_SS (s : string) : bool :=
  match String.list_ascii_of_string s with
  | [h1; h2; c1; m1; m2; c2; s1; s2] =>
      isDigit h1 && isDigit h2 && Ascii.eqb c1 ":" && isDigit m1 && isDigit m2
      && Ascii.eqb c2 ":" && isDigit s1 && isDigit s2
  | _ => false
  end.

(** [YYYY-MM-DD] *)
Definition is_YYYY_MM_DD (s : string) : bool :=
  match String.list_ascii_of_string s with
  | [y1; y2; y3; y4; c1; m1; m2; c2; d1; d2] =>
      isDigit y1 && isDigit y2 && isDigit y3 && isDigit y4 && Ascii.eqb c1 "-"
      && isDigit m1 && isDigit m2 && Ascii.eqb c2 "-" && isDigit d1
      && isDigit d2
  | _ => false
  end.

(** ** Sequences of add/update/delete/toggle with fresh ids on add *)

(** Every action is one of the four, and every [AddTodo] carries an id that
    is not in the store it is applied to. *)
Fixpoint freshAdds (s : TodoState) (acts : list Action) : Prop :=
  match acts with
  | [] => True
  | a :: rest =>
      match a with
      | AddTodo t => id t ∉ ids (todos s)
      | UpdateTodo _ | DeleteTodo _ | ToggleTodo _ => True
      | _ => False
      end ∧ freshAdds (reducer s a) rest
  end.

(** ** The item card (todo-item.tsx) *)

Module TodoItem.

Definition handleDelete (todo : Todo) : Eff unit :=
  dispatch (DeleteTodo (id todo)).

Definition handleToggle (todo : Todo) : Eff unit :=
  dispatch (ToggleTodo (id todo)).

(** [onEdit?.(todo)] is reached for an entity that is not completed; the
    result is the entity handed to [onEdit], if any. *)
Definition handleEdit (todo : Todo) : option Todo :=
  if negb (completed todo) then Some todo else None.

End TodoItem.

(** What a callback leaves in the store [s]. *)
Definition storeAfter (callback : Eff unit) (s : TodoState) : TodoState :=
  store (callback {| store := s; dispatched := [] |}).1.

(** ** The form (todo-form.tsx) *)

Module Form.

(** The [useState] cells of the form; [date] and [time] are time values. *)
Record State : Type := mkState {
  name : string;
  description : string;
  date : Z;
  time : Z;
  showDatePicker : bool;
  showTimePicker : bool;
  nameError : bool;
  descriptionError : bool
}.

(** What one press of the submit button does: the cells afterwards, the
    actions dispatched, and whether [onSubmit] was reached. *)
Record Outcome : Type := mkOutcome {
  cells : State;
  actions : list Action;
  onSubmitReached : bool
}.

End Form.

(** [a || b] on strings: the empty string is falsy. *)
Definition string_or (a b : string) : string :=
  match a with
  | EmptyString => b
  | _ => a
  end.

Section FormLogic.

(** [String.prototype.trim] removes the white space and line terminators of
    the Unicode tables, [Date.prototype.toTimeString] prints in the time zone
    of the device: the tables and the zone are parameters. [LocalTZA t] is
    the offset of local time at [t] in milliseconds, [zoneName t] the text
    that follows the time of day. *)
Variable isWhiteSpace : ascii → bool.
Variable LocalTZA : Z → Z.
Variable zoneName : Z → string.

Fixpoint trimStart (s : string) : string :=
  match s with
  | EmptyString => EmptyString
  | String c rest => if isWhiteSpace c then trimStart rest else s
  end.

Fixpoint trimEnd (s : string) : string :=
  match s with
  | EmptyString => EmptyString
  | String c rest =>
      match trimEnd rest with
      | EmptyString => if isWhiteSpace c then EmptyString else String c ""
      | kept => String c kept
      end
  end.

Definition trim (s : string) : string := trimEnd (trimStart s).

(** [time.toTimeString()] *)
Definition Date_toTimeString (t : Z) : string :=
  let local := (t + LocalTZA t)%Z in
  toTimeString (HourFromTime local) (MinFromTime local) (SecFromTime local)
    (zoneName t).

(** [resetForm]; [t1] and [t2] are its two readings of the clock. *)
Definition resetForm (t1 t2 : Z) (st : Form.State) : Form.State :=
  {| Form.name := ""; Form.description := ""; Form.date := t1;
     Form.time := t2; Form.nameError := false;
     Form.descriptionError := false; Form.showDatePicker := false;
     Form.showTimePicker := false |}.

Definition isNameValid (st : Form.State) : bool :=
  (0 <? String.length (trim (Form.name st)))%nat.

Definition isDescriptionValid (st : Form.State) : bool :=
  (0 <? String.length (trim (Form.description st)))%nat.

(** [validateInputs]: sets the two error flags and tells whether both
    fields are valid. *)
Definition validateInputs (st : Form.State) : Form.State * bool :=
  ({| Form.name := Form.name st; Form.description := Form.description st;
      Form.date := Form.date st; Form.time := Form.time st;
      Form.showDatePicker := Form.showDatePicker st;
      Form.showTimePicker := Form.showTimePicker st;
      Form.nameError := negb (isNameValid st);
      Form.descriptionError := negb (isDescriptionValid st) |},
   isNameValid st && isDescriptionValid st).

(** The [todoData] that [handleSubmit] builds; [now] is [Date.now()]. *)
Definition todoData (initialTodo : option Todo) (now : Z) (st : Form.State)
    : Todo :=
  {| id := string_or (match initialTodo with
                      | Some t => id t
                      | None => ""
                      end) (Number_toString now);
     name := trim (Form.name st);
     description := trim (Form.description st);
     dueDate := split_head "T" (toISOString (Form.date st));
     dueTime := split_head " " (Date_toTimeString (Form.time st));
     completed := false |}.

(** [handleSubmit]; [onSubmit] tells whether the prop is given. *)
Definition handleSubmit (initialTodo : option Todo) (onSubmit : bool)
    (now t1 t2 : Z) (st : Form.State) : Form.Outcome :=
  let '(validated, ok) := validateInputs st in
  if negb ok
  then {| Form.cells := validated; Form.actions := [];
          Form.onSubmitReached := false |}
  else
    match initialTodo with
    | Some _ =>
        {| Form.cells := validated;
           Form.actions := [UpdateTodo (todoData initialTodo now st)];
           Form.onSubmitReached := onSubmit |}
    | None =>
        {| Form.cells := resetForm t1 t2 validated;
           Form.actions := [AddTodo (todoData initialTodo now st)];
           Form.onSubmitReached := onSubmit |}
    end.

End FormLogic.

(** White space among the ASCII characters: tab, line feed, vertical tab,
    form feed, carriage return and space. *)
Definition ascii_isWhiteSpace (c : ascii) : bool :=
  let n := N_of_ascii c in (((9 <=? n) && (n <=? 13)) || (n =? 32))%N.

(** ** The list screen (todo-list-screen.tsx) *)

Global Instance SortOption_eq_dec : EqDecision SortOption.
Proof. solve_decision. Defined.

Module Screen.

(** The [useState] cells of the screen. *)
Record State : Type := mkState {
  searchQuery : string;
  sortBy : SortOption;
  sortOrder : SortOrder;
  showSortMenu : bool;
  editingTodo : option Todo
}.

Definition initial : State :=
  {| searchQuery := ""; sortBy := by_date; sortOrder := asc;
     showSortMenu := false; editingTodo := None |}.

End Screen.

Definition handleSort (newSortBy : SortOption) (ui : Screen.State)
    : Screen.State :=
  if decide (Screen.sortBy ui = newSortBy)
  then {| Screen.searchQuery := Screen.searchQuery ui;
          Screen.sortBy := Screen.sortBy ui;
          Screen.sortOrder := match Screen.sortOrder ui with
                              | asc => desc
                              | desc => asc
                              end;
          Screen.showSortMenu := false;
          Screen.editingTodo := Screen.editingTodo ui |}
  else {| Screen.searchQuery := Screen.searchQuery ui;
          Screen.sortBy := newSortBy;
          Screen.sortOrder := asc;
          Screen.showSortMenu := false;
          Screen.editingTodo := Screen.editingTodo ui |}.

(** The screen's [handleEdit] and [handleEditComplete]. *)
Definition handleEdit (todo : Todo) (ui : Screen.State) : Screen.State :=
  {| Screen.searchQuery := Screen.searchQuery ui;
     Screen.sortBy := Screen.sortBy ui;
     Screen.sortOrder := Screen.sortOrder ui;
     Screen.showSortMenu := Screen.showSortMenu ui;
     Screen.editingTodo := Some todo |}.

Definition handleEditComplete (ui : Screen.State) : Screen.State :=
  {| Screen.searchQuery := Screen.searchQuery ui;
     Screen.sortBy := Screen.sortBy ui;
     Screen.sortOrder := Screen.sortOrder ui;
     Screen.showSortMenu := Screen.showSortMenu ui;
     Screen.editingTodo := None |}.

(** The press of [Edit] on an item of the list: the item's guard, then the
    screen's [handleEdit] as its [onEdit]. *)
Definition pressEdit (todo : Todo) (ui : Screen.State) : Screen.State :=
  match TodoItem.handleEdit todo with
  | Some t => handleEdit t ui
  | None => ui
  end.


(** *** Parsing a stored date: [new Date(dueDate)]

    The date-only form [YYYY-MM-DD] of a calendar date is read as midnight
    UTC of that day. What an engine makes of other strings is not modelled:
    [None] stands for them. *)

Definition digitValue (c : ascii) : Z := (Z.of_N (N_of_ascii c) - 48)%Z.

(** The day of the year on which a month (numbered from 0) starts. *)
Definition MonthStart (month leap : Z) : Z :=
  match month with
  | 0 => 0
  | 1 => 31
  | 2 => 59 + leap
  | 3 => 90 + leap
  | 4 => 120 + leap
  | 5 => 151 + leap
  | 6 => 181 + leap
  | 7 => 212 + leap
  | 8 => 243 + leap
  | 9 => 273 + leap
  | 10 => 304 + leap
  | 11 => 334 + leap
  | _ => 365 + leap
  end%Z.

(** ECMAScript's [MakeDay] for a month from 0 to 11. *)
Definition MakeDay (year month date : Z) : Z :=
  (DayFromYear year + MonthStart month (DaysInYear year - 365) + date - 1)%Z.

Definition Date_parse (s : string) : option Z :=
  match String.list_ascii_of_string s with
  | [y1; y2; y3; y4; _; m1; m2; _; d1; d2] =>
      let year := (1000 * digitValue y1 + 100 * digitValue y2
                   + 10 * digitValue y3 + digitValue y4)%Z in
      let month := (10 * digitValue m1 + digitValue m2)%Z in
      let date := (10 * digitValue d1 + digitValue d2)%Z in
      let leap := (DaysInYear year - 365)%Z in
      if is_YYYY_MM_DD s
         && (1 <=? month)%Z && (month <=? 12)%Z && (1 <=? date)%Z
         && (date <=? MonthStart month leap - MonthStart (month - 1) leap)%Z
      then Some (MakeDay year (month - 1) date * msPerDay)%Z
      else None
  | _ => None
  end.

(** The first value of the form's [date] cell:
    [initialTodo ? new Date(initialTodo.dueDate) : new Date()]. *)
Definition initialDate (initialTodo : option Todo) (now : Z) : option Z :=
  match initialTodo with
  | Some t => Date_parse (dueDate t)
  | None => Some now
  end.

(** *** The sort step and the counters of the list screen

    [String.prototype.localeCompare] follows the locale of the device and
    [Array.prototype.sort] the engine: both are parameters, and so is
    [toLowerCase] as before. A comparison is [None] where the source has a
    date that is not modelled. *)

Section SortStep.

Variable toLowerCase : string → string.
Variable localeCompare : string → string → Z.
Variable Array_sort : (Todo → Todo → option Z) → list Todo → list Todo.

(** [new Date(s).getTime()] *)
Definition getTime (s : string) : option Z := Date_parse s.

Definition comparison (field : SortOption) (a b : Todo) : option Z :=
  match field with
  | by_name => Some (localeCompare (name a) (name b))
  | by_date =>
      ta ← getTime (dueDate a); tb ← getTime (dueDate b); Some (ta - tb)%Z
  | by_time => Some (localeCompare (dueTime a) (dueTime b))
  end.

Definition compareTodos (field : SortOption) (order : SortOrder)
    (a b : Todo) : option Z :=
  match order with
  | asc => comparison field a b
  | desc => Z.opp <$> comparison field a b
  end.

Definition sortedAndFilteredTodos (todos : list Todo) (ui : Screen.State)
    : list Todo :=
  Array_sort (compareTodos (Screen.sortBy ui) (Screen.sortOrder ui))
    (filteredTodos toLowerCase todos (Screen.searchQuery ui)).

End SortStep.

(** The three counters above the list. *)
Definition totalCount (view : list Todo) : nat := length view.

Definition completedCount (view : list Todo) : nat :=
  length (List.filter (λ todo, completed todo) view).

Definition pendingCount (view : list Todo) : nat :=
  length (List.filter (λ todo, negb (completed todo)) view).

(** [Number.isSafeInteger]: the integers that a JS number holds exactly,
    from [-(2^53 - 1)] to [2^53 - 1]. *)
Definition isSafeInteger (n : Z) : bool :=
  ((- 2 ^ 53 <? n) && (n <? 2 ^ 53))%Z.

(** A string of ASCII characters only (code units below 128). *)
Fixpoint isASCII (s : string) : bool :=
  match s with
  | EmptyString => true
  | String c rest => (N_of_ascii c <? 128)%N && isASCII rest
  end.

(** ** Sample data *)

Definition milk : Todo :=
  {| id := "1"; name := "Buy milk"; description := "2%";
     dueDate := "2024-01-01"; dueTime := "09:00:00"; completed := false |}.

Definition milkChanged : Todo :=
  {| id := "1"; name := "Changed"; description := "";
     dueDate := "2024-03-05"; dueTime := "00:00"; completed := true |}.

Definition bread : Todo :=
  {| id := "2"; name := "Bake bread"; description := "rye";
     dueDate := "2024-01-02"; dueTime := "17:30:00"; completed := false |}.

Definition storeOf (l : list Todo) : TodoState := set_todos l initialState.

(** Two filled forms and a device one hour east of Greenwich. *)
Definition formMilk : Form.State :=
  Form.mkState " Buy milk " "2%" 1700000000000 1700000000000 false false
    false false.

Definition formBread : Form.State :=
  Form.mkState "Bake bread" " rye" 1700000000000 1700003600000 false false
    false false.

Definition oneHourEast : Z → Z := λ _, 3600000%Z.

Definition zoneCET : Z → string := λ _, "GMT+0100 (CET)".

(** * Properties *)

(** ** Records and field assignments *)

Lemma set_todos_id (s : TodoState) : set_todos (todos s) s = s.
Proof. by destruct s. Qed.

Lemma TodoState_eq (s1 s2 : TodoState) :
  todos s1 = todos s2 → searchQuery s1 = searchQuery s2 →
  sortBy s1 = sortBy s2 → sortOrder s1 = sortOrder s2 →
  isLoading s1 = isLoading s2 → error s1 = error s2 → s1 = s2.
Proof. destruct s1, s2; simpl; congruence. Qed.

(** ** The lookup map of [mergeTodos] *)

Lemma new_Map_lookup_from (entries : list (string * Todo))
    (m : gmap string Todo) (k : string) :
  is_Some (foldl (λ m e, <[e.1 := e.2]> m) m entries !! k)
  ↔ is_Some (m !! k) ∨ k ∈ entries.*1.
Proof.
  revert m. induction entries as [|[k' v] entries IH]; intros m; simpl.
  - rewrite elem_of_nil. tauto.
  - rewrite IH, elem_of_cons, lookup_insert_is_Some. simpl.
    destruct (decide (k' = k)) as [->|Hne]; [by split; auto|].
    split.
    + intros [[?|[_ ?]]|?]; auto; congruence.
    + intros [?|[->|?]]; auto; congruence.
Qed.

Lemma Map_has_ids (l : list Todo) (k : string) :
  Map_has (new_Map ((λ todo, (id todo, todo)) <$> l)) k
  = bool_decide (k ∈ ids l).
Proof.
  unfold Map_has, new_Map, ids. apply bool_decide_ext.
  rewrite new_Map_lookup_from, lookup_empty, <- list_fmap_compose.
  split; [intros [[? [=]]|?]|intros ?]; auto.
Qed.

(** The loop of [mergeTodos] appends, in order, the incoming entities that
    pass the test; the test does not look at what was appended so far. *)
Lemma forEach_push (keep : Todo → bool) (acc payload : list Todo) :
  foldl (λ acc newTodo, if keep newTodo then acc ++ [newTodo] else acc)
        acc payload
  = acc ++ List.filter keep payload.
Proof.
  revert acc. induction payload as [|t payload IH]; intros acc; simpl.
  - by rewrite app_nil_r.
  - rewrite IH. destruct (keep t); [|done]. by rewrite <- app_assoc.
Qed.

Lemma List_filter_stdpp {A} (P : A → Prop) `{∀ x, Decision (P x)}
    (l : list A) :
  List.filter (λ x, bool_decide (P x)) l = filter P l.
Proof.
  induction l as [|x l IH]; simpl; [done|].
  rewrite IH. case_bool_decide.
  - by rewrite filter_cons_True.
  - by rewrite filter_cons_False.
Qed.

Lemma mergeTodos_todos (s : TodoState) (incoming : list Todo) :
  todos (mergeTodos s incoming)
  = todos s ++ filter (λ t, id t ∉ ids (todos s)) incoming.
Proof.
  unfold mergeTodos. simpl. rewrite forEach_push. f_equal.
  rewrite <- List_filter_stdpp. apply List.filter_ext. intros t.
  rewrite Map_has_ids. by rewrite bool_decide_not.
Qed.

Lemma mergeTodos_state (s : TodoState) (incoming : list Todo) :
  mergeTodos s incoming
  = set_todos (todos s ++ filter (λ t, id t ∉ ids (todos s)) incoming) s.
Proof. apply TodoState_eq; try done. by rewrite mergeTodos_todos. Qed.

Lemma ids_app (l1 l2 : list Todo) : ids (l1 ++ l2) = ids l1 ++ ids l2.
Proof. apply fmap_app. Qed.

Lemma filter_none {A} (P : A → Prop) `{∀ x, Decision (P x)} (l : list A) :
  (∀ x, x ∈ l → ¬ P x) → filter P l = [].
Proof.
  induction l as [|x l IH]; intros Hl; [done|].
  rewrite filter_cons_False by (apply Hl; left).
  apply IH. intros y Hy. apply Hl. by right.
Qed.

Lemma elem_of_ids (l : list Todo) (t : Todo) : t ∈ l → id t ∈ ids l.
Proof. apply list_elem_of_fmap_2. Qed.

(** Two incoming entries with one id that both pass the test leave that id
    twice among the appended entities. *)
Lemma twice_kept_not_NoDup (P : Todo → Prop) `{∀ x, Decision (P x)}
    (incoming : list Todo) (j k : nat) (t u : Todo) :
  j ≠ k → incoming !! j = Some t → incoming !! k = Some u →
  id t = id u → P t → P u → ¬ NoDup (ids (filter P incoming)).
Proof.
  intros Hjk Hj Hk Hid HPt HPu. revert j k Hjk Hj Hk.
  induction incoming as [|x incoming IH]; intros j k Hjk Hj Hk Hnd; [done|].
  assert (Hin : ∀ v, P v → v ∈ incoming → id v ∈ ids (filter P incoming)).
  { intros v HPv Hv. apply elem_of_ids. by apply list_elem_of_filter. }
  destruct j as [|j], k as [|k]; simpl in *; simplify_eq.
  - rewrite filter_cons_True in Hnd by done. simpl in Hnd.
    apply NoDup_cons in Hnd as [Hnot _]. apply Hnot. rewrite Hid.
    apply Hin; [done|]. by eapply list_elem_of_lookup_2.
  - rewrite filter_cons_True in Hnd by done. simpl in Hnd.
    apply NoDup_cons in Hnd as [Hnot _]. apply Hnot. rewrite <- Hid.
    apply Hin; [done|]. by eapply list_elem_of_lookup_2.
  - apply (IH j k); [congruence|done|done|].
    rewrite filter_cons in Hnd. destruct (decide (P x)); [|done].
    simpl in Hnd. by apply NoDup_cons in Hnd as [_ ?].
Qed.

(** ** mergeTodos *)

(** C1. For every store state and incoming sequence, [mergeTodos] leaves the
    pre-merge collection as it is (same entities at the same positions) and
    appends after it exactly the incoming entities whose id no pre-merge
    entity has, in the order of the incoming sequence; for an id present both
    locally and in the incoming sequence the entities with that id are the
    same before and after; no other field of the state changes. *)
Theorem mergeTodos_appends_only_new (s : TodoState) (incoming : list Todo) :
  let merged := todos (mergeTodos s incoming) in
  let appended := drop (length (todos s)) merged in
  merged = todos s ++ appended
  ∧ appended = filter (λ t, id t ∉ ids (todos s)) incoming
  ∧ sublist appended incoming
  ∧ (∀ t, t ∈ appended → t ∈ incoming ∧ id t ∉ ids (todos s))
  ∧ (∀ k, k < length (todos s) → merged !! k = todos s !! k)
  ∧ (∀ i, i ∈ ids (todos s) → i ∈ ids incoming →
       filter (λ t, id t = i) merged = filter (λ t, id t = i) (todos s))
  ∧ mergeTodos s incoming = set_todos merged s.
Proof.
  intros merged appended. subst appended merged.
  rewrite mergeTodos_todos, drop_app_length.
  split; [done|]. split; [done|]. split; [apply sublist_filter|].
  split; [|split; [|split]].
  - intros t [Hid Hin]%list_elem_of_filter. done.
  - intros k Hk. by apply lookup_app_l.
  - intros i Hi _. rewrite filter_app.
    rewrite (filter_none (λ t, id t = i) (filter _ incoming)).
    + by rewrite app_nil_r.
    + intros t [Hid _]%list_elem_of_filter Heq. by subst i.
  - apply mergeTodos_state.
Qed.

Lemma mergeTodos_appends_only_new_witness :
  "1" ∈ ids (todos (storeOf [milk])) ∧ "1" ∈ ids [milkChanged; bread]
  ∧ filter (λ t, id t = "1")
      (todos (mergeTodos (storeOf [milk]) [milkChanged; bread]))
    = [milk].
Proof.
  assert (H1 : "1" ∈ ids (todos (storeOf [milk]))) by (by left).
  assert (H2 : "1" ∈ ids [milkChanged; bread]) by (by left).
  split; [exact H1|]. split; [exact H2|].
  destruct (mergeTodos_appends_only_new (storeOf [milk]) [milkChanged; bread])
    as (_ & _ & _ & _ & _ & Hsame & _).
  rewrite (Hsame "1" H1 H2). reflexivity.
Defined.

(** C5. Merging the same incoming sequence a second time changes nothing:
    the state after the second merge is the state after the first. *)
Theorem mergeTodos_idempotent (s : TodoState) (A : list Todo) :
  mergeTodos (mergeTodos s A) A = mergeTodos s A
  ∧ todos (mergeTodos (mergeTodos s A) A) = todos (mergeTodos s A).
Proof.
  assert (Hstate : mergeTodos (mergeTodos s A) A = mergeTodos s A);
    [|by rewrite Hstate].
  rewrite (mergeTodos_state (mergeTodos s A)).
  rewrite filter_none; [by rewrite app_nil_r, set_todos_id|].
  intros t Ht Hnot. apply Hnot. rewrite mergeTodos_todos, ids_app.
  destruct (decide (id t ∈ ids (todos s))) as [Hin|Hout].
  - apply elem_of_app. by left.
  - apply elem_of_app. right. apply elem_of_ids.
    by apply list_elem_of_filter.
Qed.

(** C10. [mergeTodos] tests the incoming ids against the pre-merge
    collection only. An incoming sequence with two entries that share an id
    absent from the store has both appended, so the merged collection holds
    that id twice; a store with unique ids keeps them unique exactly when the
    incoming entities that are new to it have pairwise distinct ids, in
    particular when all incoming ids are pairwise distinct. *)
Theorem mergeTodos_duplicate_incoming :
  (∀ s incoming,
     todos (mergeTodos s incoming)
     = todos s ++ filter (λ t, id t ∉ ids (todos s)) incoming)
  ∧ todos (mergeTodos (storeOf [bread]) [milk; milkChanged])
    = [bread; milk; milkChanged]
  ∧ ¬ NoDup (ids (todos (mergeTodos (storeOf [bread]) [milk; milkChanged])))
  ∧ (∀ s incoming j k t u,
       j ≠ k → incoming !! j = Some t → incoming !! k = Some u →
       id t = id u → id t ∉ ids (todos s) →
       ¬ NoDup (ids (todos (mergeTodos s incoming))))
  ∧ (∀ s incoming,
       NoDup (ids (todos s)) →
       (NoDup (ids (todos (mergeTodos s incoming)))
        ↔ NoDup (ids (filter (λ t, id t ∉ ids (todos s)) incoming))))
  ∧ (∀ s incoming,
       NoDup (ids (todos s)) → NoDup (ids incoming) →
       NoDup (ids (todos (mergeTodos s incoming)))).
Proof.
  assert (Hiff : ∀ s incoming,
    NoDup (ids (todos s)) →
    (NoDup (ids (todos (mergeTodos s incoming)))
     ↔ NoDup (ids (filter (λ t, id t ∉ ids (todos s)) incoming)))).
  { intros s incoming Hs. rewrite mergeTodos_todos, ids_app, NoDup_app.
    split; [by intros (_ & _ & ?)|]. intros Hnew.
    split; [done|]. split; [|done].
    intros i Hi [t [-> [Hid _]%list_elem_of_filter]]%list_elem_of_fmap.
    done. }
  split; [apply mergeTodos_todos|]. split; [reflexivity|].
  split.
  { intros Hnd. apply (NoDup_lookup _ 1 2 "1") in Hnd; done. }
  split; [|split; [exact Hiff|]].
  - intros s incoming j k t u Hjk Hj Hk Hid Hout Hnd.
    rewrite mergeTodos_todos, ids_app in Hnd.
    apply NoDup_app in Hnd as (_ & _ & Hnd).
    revert Hnd. apply (twice_kept_not_NoDup _ _ j k t u); try done.
    by rewrite <- Hid.
  - intros s incoming Hs Hinc. apply Hiff; [done|].
    apply (sublist_NoDup _ (ids incoming)); [exact Hinc|]. apply fmap_sublist, sublist_filter.
Qed.

Lemma mergeTodos_duplicate_incoming_witness :
  NoDup (ids (todos (storeOf [milk]))) ∧ NoDup (ids [milkChanged; bread])
  ∧ NoDup (ids (todos (mergeTodos (storeOf [milk]) [milkChanged; bread]))).
Proof.
  assert (H1 : NoDup (ids (todos (storeOf [milk])))).
  { apply (bool_decide_unpack _). vm_compute. exact I. }
  assert (H2 : NoDup (ids [milkChanged; bread])).
  { apply (bool_decide_unpack _). vm_compute. exact I. }
  split; [exact H1|]. split; [exact H2|].
  destruct mergeTodos_duplicate_incoming as (_ & _ & _ & _ & _ & Hkeep).
  exact (Hkeep (storeOf [milk]) [milkChanged; bread] H1 H2).
Defined.

Lemma elem_of_ids_mergeTodos (s : TodoState) (X : list Todo) (i : string) :
  i ∈ ids (todos (mergeTodos s X)) ↔ i ∈ ids (todos s) ∨ i ∈ ids X.
Proof.
  rewrite mergeTodos_todos, ids_app, elem_of_app. split.
  - intros [?|[t [-> [_ Ht]%list_elem_of_filter]]%list_elem_of_fmap];
      [by left|right; by apply elem_of_ids].
  - intros [?|[t [-> Ht]]%list_elem_of_fmap]; [by left|].
    destruct (decide (id t ∈ ids (todos s))); [by left|right].
    apply elem_of_ids. by apply list_elem_of_filter.
Qed.

Lemma filter_ext_elem {A} (P Q : A → Prop) `{∀ x, Decision (P x)}
    `{∀ x, Decision (Q x)} (l : list A) :
  (∀ x, x ∈ l → P x ↔ Q x) → filter P l = filter Q l.
Proof.
  induction l as [|x l IH]; intros Hl; [done|].
  rewrite !filter_cons, IH by (intros y Hy; apply Hl; by right).
  destruct (decide (P x)) as [HP|HP], (decide (Q x)) as [HQ|HQ]; try done;
    exfalso; apply (Hl x) in HP || apply (Hl x) in HQ; by try left.
Qed.

(** With disjoint incoming ids the same entities arrive, but the order of the
    merged collection follows the order of the two merges. *)
Lemma mergeTodos_order_depends :
  todos (mergeTodos (mergeTodos initialState [milk]) [bread]) = [milk; bread]
  ∧ todos (mergeTodos (mergeTodos initialState [bread]) [milk])
    = [bread; milk].
Proof. split; reflexivity. Qed.

(** C6, as stated: two merges do not commute. Two fetches that bring
    different entities under one id leave the entity of the merge that came
    first, so the two orders differ, and not only in the order of entries. *)
Lemma mergeTodos_not_commutative :
  todos (mergeTodos (mergeTodos initialState [milk]) [milkChanged])
  ≠ todos (mergeTodos (mergeTodos initialState [milkChanged]) [milk])
  ∧ ¬ (todos (mergeTodos (mergeTodos initialState [milk]) [milkChanged])
       ≡ₚ todos (mergeTodos (mergeTodos initialState [milkChanged]) [milk])).
Proof.
  change (todos (mergeTodos (mergeTodos initialState [milk]) [milkChanged]))
    with [milk].
  change (todos (mergeTodos (mergeTodos initialState [milkChanged]) [milk]))
    with [milkChanged].
  split; [discriminate|].
  intros Hp. apply Permutation_singleton_l in Hp. discriminate.
Qed.

(** A second merge tests its incoming ids against the store and against
    everything the first merge brought. *)
Lemma mergeTodos_mergeTodos_todos (s : TodoState) (A B : list Todo) :
  todos (mergeTodos (mergeTodos s A) B)
  = todos s ++ filter (λ t, id t ∉ ids (todos s)) A
    ++ filter (λ t, id t ∉ ids A) (filter (λ t, id t ∉ ids (todos s)) B).
Proof.
  rewrite (mergeTodos_todos (mergeTodos s A)), mergeTodos_todos.
  rewrite <- app_assoc. do 2 f_equal.
  rewrite list_filter_filter. apply list_filter_iff. intros b.
  rewrite <- mergeTodos_todos, elem_of_ids_mergeTodos. tauto.
Qed.

(** The new entities of one batch, split by whether the other batch has
    their id. *)
Lemma shared_and_own (P : Todo → Prop) `{∀ x, Decision (P x)}
    (l : list Todo) :
  l ≡ₚ filter P l ++ filter (λ t, ¬ P t) l.
Proof. symmetry. apply filter_app_complement. Qed.

(** C6, amended. Merging [A] then [B] gives the pre-merge collection, then
    the entities of [A] that are new to the store in the order of [A], then
    the entities of [B] whose id is neither in the store nor in [A], in the
    order of [B]; merging [B] then [A] gives the same with [A] and [B]
    exchanged. So the order of the appended entities, and which entity is
    kept under an id that both bring anew, follow the order of the merges.
    The two collections start with the pre-merge collection and hold the
    same set of ids. They hold the same entities, in a possibly different
    order, exactly when the new entities of [A] whose id occurs in [B] are,
    up to order, the new entities of [B] whose id occurs in [A]: so when
    every id that [A] and [B] share is already in the store, and when [B] is
    a rearrangement of [A]. When [A] and [B] bring the same new entities in
    the same order (the same records fetched twice), the two states are
    equal. *)
Theorem mergeTodos_commute_up_to_order (s : TodoState) (A B : list Todo) :
  let AB := todos (mergeTodos (mergeTodos s A) B) in
  let BA := todos (mergeTodos (mergeTodos s B) A) in
  let newA := filter (λ t, id t ∉ ids (todos s)) A in
  let newB := filter (λ t, id t ∉ ids (todos s)) B in
  AB = todos s ++ newA ++ filter (λ t, id t ∉ ids A) newB
  ∧ BA = todos s ++ newB ++ filter (λ t, id t ∉ ids B) newA
  ∧ (∀ i, i ∈ ids AB ↔ i ∈ ids BA)
  ∧ take (length (todos s)) AB = todos s
  ∧ take (length (todos s)) BA = todos s
  ∧ (AB ≡ₚ BA
     ↔ filter (λ t, id t ∈ ids B) newA ≡ₚ filter (λ t, id t ∈ ids A) newB)
  ∧ ((∀ a b, a ∈ A → b ∈ B → id a = id b → id a ∈ ids (todos s)) →
     AB ≡ₚ BA)
  ∧ (A ≡ₚ B → AB ≡ₚ BA)
  ∧ (newA = newB →
     mergeTodos (mergeTodos s A) B = mergeTodos (mergeTodos s B) A).
Proof.
  intros AB BA newA newB.
  assert (HAB : AB = todos s ++ newA ++ filter (λ t, id t ∉ ids A) newB)
    by apply mergeTodos_mergeTodos_todos.
  assert (HBA : BA = todos s ++ newB ++ filter (λ t, id t ∉ ids B) newA)
    by apply mergeTodos_mergeTodos_todos.
  assert (Hiff : AB ≡ₚ BA
    ↔ filter (λ t, id t ∈ ids B) newA ≡ₚ filter (λ t, id t ∈ ids A) newB).
  { rewrite HAB, HBA.
    rewrite (shared_and_own (λ t, id t ∈ ids B) newA) at 1.
    rewrite (shared_and_own (λ t, id t ∈ ids A) newB) at 2.
    set (sharedA := filter (λ t, id t ∈ ids B) newA).
    set (sharedB := filter (λ t, id t ∈ ids A) newB).
    set (ownA := filter (λ t, id t ∉ ids B) newA).
    set (ownB := filter (λ t, id t ∉ ids A) newB).
    change (filter (λ t, ¬ id t ∈ ids B) newA) with ownA.
    change (filter (λ t, ¬ id t ∈ ids A) newB) with ownB.
    split.
    - intros Hp. apply Permutation_app_inv_l in Hp.
      apply (Permutation_app_inv_r (ownA ++ ownB)).
      rewrite !app_assoc. etrans; [exact Hp|].
      rewrite <- !app_assoc. apply Permutation_app_head, Permutation_app_comm.
    - intros Hp. apply Permutation_app_head.
      rewrite <- !app_assoc, Hp.
      apply Permutation_app_head, Permutation_app_comm. }
  split; [exact HAB|]. split; [exact HBA|].
  split; [|split; [|split; [|split; [exact Hiff|split; [|split]]]]].
  - intros i. subst AB BA. rewrite !elem_of_ids_mergeTodos. tauto.
  - rewrite HAB. apply take_app_length.
  - rewrite HBA. apply take_app_length.
  - intros Hshared. apply Hiff.
    rewrite !filter_none; [done| |].
    + intros b [Hout Hb]%list_elem_of_filter
        [a [Heq Ha]]%list_elem_of_fmap.
      apply Hout. rewrite Heq. by apply (Hshared a b).
    + intros a [Hout Ha]%list_elem_of_filter
        [b [Heq Hb]]%list_elem_of_fmap.
      apply Hout. by apply (Hshared a b).
  - intros Hperm. apply Hiff. subst newA newB.
    trans (filter (λ t, id t ∈ ids B)
             (filter (λ t, id t ∉ ids (todos s)) B)); [by rewrite Hperm|].
    rewrite (list_filter_iff (λ t, id t ∈ ids B) (λ t, id t ∈ ids A));
      [done|].
    intros t. unfold ids. by rewrite Hperm.
  - intros Hsame. apply TodoState_eq; try done.
    fold AB BA. rewrite HAB, HBA, Hsame.
    rewrite !filter_none; [done| |].
    + intros t Ht Hout. apply Hout, elem_of_ids.
      unfold newB in Ht. by apply list_elem_of_filter in Ht as [_ ?].
    + intros t Ht Hout. apply Hout, elem_of_ids.
      rewrite <- Hsame in Ht. unfold newA in Ht.
      by apply list_elem_of_filter in Ht as [_ ?].
Qed.

Lemma mergeTodos_commute_up_to_order_witness :
  [milk; bread] ≡ₚ [bread; milk]
  ∧ todos (mergeTodos (mergeTodos initialState [milk; bread]) [bread; milk])
    = [milk; bread]
  ∧ todos (mergeTodos (mergeTodos initialState [bread; milk]) [milk; bread])
    = [bread; milk]
  ∧ todos (mergeTodos (mergeTodos initialState [milk; bread]) [bread; milk])
    ≡ₚ todos (mergeTodos (mergeTodos initialState [bread; milk])
                [milk; bread]).
Proof.
  assert (H : [milk; bread] ≡ₚ [bread; milk]) by apply perm_swap.
  split; [exact H|]. split; [reflexivity|]. split; [reflexivity|].
  destruct (mergeTodos_commute_up_to_order initialState [milk; bread]
              [bread; milk]) as (_ & _ & _ & _ & _ & _ & _ & Hperm & _).
  exact (Hperm H).
Defined.

(** ** updateTodo and toggleTodo *)

(** [k] is the first position of [l] whose entity has id [i]. *)
Lemma first_match_find (l : list Todo) (i : string) (k : nat) (old : Todo) :
  l !! k = Some old → id old = i →
  (∀ j u, j < k → l !! j = Some u → id u ≠ i) →
  list_find (λ todo, id todo = i) l = Some (k, old).
Proof.
  intros Hk Hid Hfirst. apply list_find_Some. split; [done|]. split; [done|].
  intros j u Hj Hlt. by apply (Hfirst j u).
Qed.

Lemma no_match_find (l : list Todo) (i : string) :
  i ∉ ids l → list_find (λ todo, id todo = i) l = None.
Proof.
  intros Hout. apply list_find_None, Forall_forall. intros u Hu Hid.
  apply Hout. rewrite <- Hid. by apply elem_of_ids.
Qed.

Lemma updateTodo_found (s : TodoState) (t old : Todo) (k : nat) :
  list_find (λ todo, id todo = id t) (todos s) = Some (k, old) →
  updateTodo s t = set_todos (<[k := t]> (todos s)) s.
Proof.
  intros Hfind. unfold updateTodo, findIndex. rewrite Hfind.
  destruct (Z.eqb_spec (Z.of_nat k) (-1)) as [Heq|_]; [lia|].
  simpl. by rewrite Nat2Z.id.
Qed.

Lemma updateTodo_absent (s : TodoState) (t : Todo) :
  list_find (λ todo, id todo = id t) (todos s) = None → updateTodo s t = s.
Proof. intros Hfind. unfold updateTodo, findIndex. by rewrite Hfind. Qed.

(** C3. When [k] is the first position whose entity has the id of [t],
    [updateTodo] puts [t] at position [k], keeps the length and every other
    position, and changes no other field of the state; when no entity has
    that id, the state after is the state before. *)
Theorem updateTodo_replaces_first_match (s : TodoState) (t : Todo) :
  (∀ k old,
     todos s !! k = Some old → id old = id t →
     (∀ j u, j < k → todos s !! j = Some u → id u ≠ id t) →
     updateTodo s t = set_todos (<[k := t]> (todos s)) s
     ∧ todos (updateTodo s t) !! k = Some t
     ∧ length (todos (updateTodo s t)) = length (todos s)
     ∧ (∀ j, j ≠ k → todos (updateTodo s t) !! j = todos s !! j))
  ∧ (id t ∉ ids (todos s) → updateTodo s t = s).
Proof.
  split.
  - intros k old Hk Hid Hfirst.
    rewrite (updateTodo_found s t old k) by by apply first_match_find.
    simpl. split; [done|]. split; [|split].
    + apply list_lookup_insert_eq. by eapply lookup_lt_Some.
    + apply length_insert.
    + intros j Hj. by apply list_lookup_insert_ne.
  - intros Hout. by apply updateTodo_absent, no_match_find.
Qed.

Lemma updateTodo_replaces_first_match_witness :
  todos (storeOf [bread; milk; milkChanged]) !! 1 = Some milk
  ∧ todos (updateTodo (storeOf [bread; milk; milkChanged]) milkChanged)
    = [bread; milkChanged; milkChanged]
  ∧ (id milk ∉ ids (todos (storeOf [bread])))
  ∧ updateTodo (storeOf [bread]) milk = storeOf [bread].
Proof.
  destruct (updateTodo_replaces_first_match
              (storeOf [bread; milk; milkChanged]) milkChanged) as [Hin _].
  destruct (updateTodo_replaces_first_match (storeOf [bread]) milk)
    as [_ Hout].
  assert (Hfresh : id milk ∉ ids (todos (storeOf [bread]))).
  { intros Hin'%list_elem_of_singleton. discriminate Hin'. }
  split; [reflexivity|]. split; [|split; [exact Hfresh|exact (Hout Hfresh)]].
  destruct (Hin 1 milk) as [-> _]; [reflexivity|reflexivity| |reflexivity].
  intros [|j] u Hj Hu; [|lia]. injection Hu as <-. discriminate.
Defined.

Lemma toggleTodo_found (s : TodoState) (i : string) (k : nat) (todo : Todo) :
  list_find (λ todo, id todo = i) (todos s) = Some (k, todo) →
  toggleTodo s i
  = set_todos (<[k := set_completed (negb (completed todo)) todo]> (todos s))
      s.
Proof. intros Hfind. unfold toggleTodo, find. by rewrite Hfind. Qed.

Lemma toggleTodo_absent (s : TodoState) (i : string) :
  list_find (λ todo, id todo = i) (todos s) = None → toggleTodo s i = s.
Proof. intros Hfind. unfold toggleTodo, find. by rewrite Hfind. Qed.

(** Writing at the first match an entity with the same id keeps it the first
    match. *)
Lemma find_after_write (l : list Todo) (i : string) (k : nat)
    (todo new : Todo) :
  list_find (λ todo, id todo = i) l = Some (k, todo) → id new = i →
  list_find (λ todo, id todo = i) (<[k := new]> l) = Some (k, new).
Proof.
  intros (Hk & Hid & Hfirst)%list_find_Some Hnew. apply list_find_Some.
  split; [|split; [done|]].
  - apply list_lookup_insert_eq. by eapply lookup_lt_Some.
  - intros j u Hj Hlt. rewrite list_lookup_insert_ne in Hj by lia.
    by apply (Hfirst j u).
Qed.

(** C9. Two [toggleTodo] in a row with one id give back the state they
    started from: the first match has its [completed] flag flipped and
    flipped back, nothing else is written; without a match both calls leave
    the state as it is. *)
Theorem toggleTodo_twice (s : TodoState) (i : string) :
  toggleTodo (toggleTodo s i) i = s
  ∧ (∀ k todo,
       list_find (λ todo, id todo = i) (todos s) = Some (k, todo) →
       todos (toggleTodo s i)
       = <[k := set_completed (negb (completed todo)) todo]> (todos s))
  ∧ (i ∉ ids (todos s) → toggleTodo s i = s).
Proof.
  split; [|split].
  - destruct (list_find (λ todo, id todo = i) (todos s)) as [[k todo]|]
      eqn:Hfind.
    + rewrite (toggleTodo_found s i k todo Hfind).
      pose proof Hfind as (Hk & Hid & _)%list_find_Some.
      erewrite toggleTodo_found.
      2:{ simpl. apply (find_after_write _ _ _ todo); [exact Hfind|done]. }
      simpl. rewrite list_insert_insert_eq, negb_involutive.
      destruct s as [l q b o ld e], todo; simpl in *.
      unfold set_todos, set_completed; simpl. f_equal.
      by apply list_insert_id.
    + by rewrite !(toggleTodo_absent s i Hfind).
  - intros k todo Hfind. by rewrite (toggleTodo_found s i k todo Hfind).
  - intros Hout. by apply toggleTodo_absent, no_match_find.
Qed.

Lemma toggleTodo_twice_witness :
  ("1" ∉ ids (todos (storeOf [bread])))
  ∧ toggleTodo (storeOf [bread]) "1" = storeOf [bread]
  ∧ todos (toggleTodo (storeOf [bread; milk]) "1")
    = [bread; set_completed true milk].
Proof.
  assert (Hout : "1" ∉ ids (todos (storeOf [bread]))).
  { intros Hin%list_elem_of_singleton. discriminate Hin. }
  destruct (toggleTodo_twice (storeOf [bread]) "1") as (_ & _ & Habsent).
  destruct (toggleTodo_twice (storeOf [bread; milk]) "1") as (_ & Hfound & _).
  split; [exact Hout|]. split; [exact (Habsent Hout)|].
  rewrite (Hfound 1 milk); reflexivity.
Defined.

(** ** Unique ids under add, update, delete and toggle *)

Lemma ids_write_same_id (l : list Todo) (k : nat) (old new : Todo) :
  l !! k = Some old → id new = id old → ids (<[k := new]> l) = ids l.
Proof.
  intros Hk Hid. unfold ids. rewrite list_fmap_insert.
  apply list_insert_id. by rewrite list_lookup_fmap, Hk, Hid.
Qed.

Lemma ids_updateTodo (s : TodoState) (t : Todo) :
  ids (todos (updateTodo s t)) = ids (todos s).
Proof.
  destruct (list_find (λ todo, id todo = id t) (todos s)) as [[k old]|]
    eqn:Hfind.
  - rewrite (updateTodo_found s t old k Hfind). simpl.
    apply list_find_Some in Hfind as (Hk & Hid & _).
    by apply (ids_write_same_id _ _ old).
  - by rewrite (updateTodo_absent s t Hfind).
Qed.

Lemma ids_toggleTodo (s : TodoState) (i : string) :
  ids (todos (toggleTodo s i)) = ids (todos s).
Proof.
  destruct (list_find (λ todo, id todo = i) (todos s)) as [[k todo]|]
    eqn:Hfind.
  - rewrite (toggleTodo_found s i k todo Hfind). simpl.
    apply list_find_Some in Hfind as (Hk & _ & _).
    by apply (ids_write_same_id _ _ todo).
  - by rewrite (toggleTodo_absent s i Hfind).
Qed.

Lemma NoDup_ids_addTodo (s : TodoState) (t : Todo) :
  NoDup (ids (todos s)) → id t ∉ ids (todos s) →
  NoDup (ids (todos (addTodo s t))).
Proof.
  intros Hnd Hfresh. simpl. rewrite ids_app. apply NoDup_app.
  split; [done|]. split; [|apply NoDup_singleton].
  intros i Hi ->%list_elem_of_singleton. done.
Qed.

Lemma NoDup_ids_deleteTodo (s : TodoState) (i : string) :
  NoDup (ids (todos s)) → NoDup (ids (todos (deleteTodo s i))).
Proof.
  intros Hnd. simpl. apply (sublist_NoDup _ (ids (todos s))); [done|].
  apply fmap_sublist, sublist_filter.
Qed.

Lemma freshAdds_step (s : TodoState) (a : Action) (rest : list Action) :
  NoDup (ids (todos s)) → freshAdds s (a :: rest) →
  NoDup (ids (todos (reducer s a))) ∧ freshAdds (reducer s a) rest.
Proof.
  intros Hnd [Ha Hrest]. split; [|done].
  destruct a; simpl in *; try done.
  - by apply NoDup_ids_addTodo.
  - by rewrite ids_updateTodo.
  - by apply NoDup_ids_deleteTodo.
  - by rewrite ids_toggleTodo.
Qed.

(** C2. From a store with unique ids (the empty one among them), along any
    finite sequence of add, update, delete and toggle actions in which every
    add brings an id that the store does not hold at that moment, the store
    after any number of the actions has no two entities with one id. *)
Theorem crud_keeps_ids_unique (s : TodoState) (acts : list Action) :
  NoDup (ids (todos s)) → freshAdds s acts →
  ∀ n, NoDup (ids (todos (dispatchAll s (take n acts)))).
Proof.
  revert s. induction acts as [|a acts IH]; intros s Hnd Hfresh n.
  - by rewrite take_nil.
  - destruct n as [|n]; [done|]. simpl.
    destruct (freshAdds_step s a acts Hnd Hfresh) as [Hnd' Hfresh'].
    by apply IH.
Qed.

Lemma crud_keeps_ids_unique_witness :
  NoDup (ids (todos initialState))
  ∧ freshAdds initialState
      [AddTodo milk; ToggleTodo "1"; AddTodo bread; UpdateTodo milkChanged;
       DeleteTodo "2"]
  ∧ NoDup (ids (todos (dispatchAll initialState
      (take 5 [AddTodo milk; ToggleTodo "1"; AddTodo bread;
               UpdateTodo milkChanged; DeleteTodo "2"])))).
Proof.
  assert (H0 : NoDup (ids (todos initialState))) by apply NoDup_nil_2.
  assert (H1 : freshAdds initialState
      [AddTodo milk; ToggleTodo "1"; AddTodo bread; UpdateTodo milkChanged;
       DeleteTodo "2"]).
  { simpl. repeat split.
    - apply not_elem_of_nil.
    - intros Hin%list_elem_of_singleton. discriminate Hin. }
  split; [exact H0|]. split; [exact H1|].
  exact (crud_keeps_ids_unique initialState _ H0 H1 5).
Defined.

(** Without the condition on add the ids do not stay unique. *)
Lemma addTodo_same_id_twice :
  ¬ NoDup (ids (todos (dispatchAll initialState
                         [AddTodo milk; AddTodo milkChanged]))).
Proof. intros Hnd. apply (NoDup_lookup _ 0 1 "1") in Hnd; done. Qed.

(** The end-to-end scenario of the specification: add, toggle, delete. *)
Lemma add_toggle_delete_scenario :
  todos (dispatchAll initialState [AddTodo milk; ToggleTodo "1"])
  = [set_completed true milk]
  ∧ todos (dispatchAll initialState
             [AddTodo milk; ToggleTodo "1"; DeleteTodo "1"]) = [].
Proof. split; reflexivity. Qed.

(** ** handleFetchTodos *)

(** With actions [env] of the rest of the application served while the fetch
    is in flight: the callback dispatches the same four actions, and what it
    does to the store is [mergeTodos] or [setError] on the store as [env]
    left it. *)
Lemma handleFetchTodos_interleaved (env : list Action) (s : TodoState) :
  let suspended := setError (setLoading s true) None in
  let resumed := dispatchAll suspended env in
  (∀ fetchedTodos,
     runFetch env (inr fetchedTodos) s
     = ({| store := setLoading (mergeTodos resumed fetchedTodos) false;
           dispatched := [SetLoading true; SetError None;
                          MergeTodos fetchedTodos; SetLoading false] |},
        inr tt))
  ∧ (∀ err,
       runFetch env (inl err) s
       = ({| store :=
               setLoading (setError resumed (Some (failureMessage err))) false;
             dispatched := [SetLoading true; SetError None;
                            SetError (Some (failureMessage err));
                            SetLoading false] |},
          inr tt)).
Proof. split; reflexivity. Qed.

(** C4. One run of [handleFetchTodos] with nothing else dispatched
    meanwhile. It dispatches, in this order: loading on, error cleared, then,
    after the fetch has settled, either the merge of the fetched todos or the
    error message, and last loading off. After a success the collection is
    the merge, [error] is cleared and [isLoading] is off; after a failure the
    collection is the one before the run, [error] holds the message and
    [isLoading] is off. Either way loading is cleared by exactly one
    dispatch, and the callback itself ends without throwing. *)
Theorem handleFetchTodos_sequence (s : TodoState) :
  (∀ fetchedTodos,
     let w := (runFetch [] (inr fetchedTodos) s).1 in
     dispatched w = [SetLoading true; SetError None; MergeTodos fetchedTodos;
                     SetLoading false]
     ∧ store w = dispatchAll s (dispatched w)
     ∧ todos (store w) = todos (mergeTodos s fetchedTodos)
     ∧ error (store w) = None
     ∧ isLoading (store w) = false
     ∧ length (List.filter clearsLoading (dispatched w)) = 1
     ∧ (runFetch [] (inr fetchedTodos) s).2 = inr tt)
  ∧ (∀ err,
       let w := (runFetch [] (inl err) s).1 in
       dispatched w = [SetLoading true; SetError None;
                       SetError (Some (failureMessage err)); SetLoading false]
       ∧ store w = dispatchAll s (dispatched w)
       ∧ todos (store w) = todos s
       ∧ error (store w) = Some (failureMessage err)
       ∧ isLoading (store w) = false
       ∧ length (List.filter clearsLoading (dispatched w)) = 1
       ∧ (runFetch [] (inl err) s).2 = inr tt).
Proof.
  split.
  - intros fetchedTodos w. subst w. repeat split.
  - intros err w. subst w. repeat split.
Qed.

(** The second end-to-end scenario of the specification: a fetched entity is
    added to the empty store, a later fetch with the same id does not change
    it. *)
Lemma fetch_twice_keeps_first :
  todos (runFetch [] (inr [milkChanged])
           (runFetch [] (inr [milk]) initialState).1.(store)).1.(store)
  = [milk].
Proof. reflexivity. Qed.

(** A fetch that fails on a store in use leaves its entities. *)
Lemma fetch_failure_example :
  let w := (runFetch [] (inl (ErrorObject "Network Error"))
              (storeOf [milk; bread])).1 in
  todos (store w) = [milk; bread]
  ∧ error (store w) = Some "Network Error"
  ∧ isLoading (store w) = false.
Proof. repeat split. Qed.

(** ** The filter step of the derived view *)

Lemma append_String (c : ascii) (a b : string) :
  String c a +:+ b = String c (a +:+ b).
Proof. reflexivity. Qed.

Lemma append_empty (b : string) : "" +:+ b = b.
Proof. reflexivity. Qed.

Lemma prefix_append (p s : string) :
  String.prefix p s = true ↔ ∃ rest, s = p +:+ rest.
Proof.
  revert s. induction p as [|a p IH]; intros [|b s]; simpl.
  - split; [intros _; by exists ""|done].
  - split; [intros _; by exists (String b s)|done].
  - split; [done|intros [? [=]]].
  - destruct (Ascii.ascii_dec a b) as [->|Hne].
    + rewrite IH. split; intros [rest Hrest]; exists rest;
        rewrite append_String in *; congruence.
    + split; [done|]. intros [rest Hrest].
      rewrite append_String in Hrest. congruence.
Qed.

Lemma includes_nil (sub : string) :
  includes "" sub = String.prefix sub "" || false.
Proof. reflexivity. Qed.

Lemma includes_String (c : ascii) (s sub : string) :
  includes (String c s) sub
  = String.prefix sub (String c s) || includes s sub.
Proof. reflexivity. Qed.

(** [includes] finds [sub] exactly when the string is some text, then [sub],
    then some text. *)
Lemma includes_spec (s sub : string) :
  includes s sub = true ↔ ∃ before after, s = before +:+ sub +:+ after.
Proof.
  split.
  - induction s as [|c s IH].
    + rewrite includes_nil, orb_false_r.
      intros [rest ->]%prefix_append. by exists "", rest.
    + rewrite includes_String.
      intros [[rest ->]%prefix_append|Hin]%orb_true_iff.
      * by exists "", rest.
      * destruct (IH Hin) as (before & after & ->).
        by exists (String c before), after.
  - intros (before & after & ->).
    induction before as [|c before IH].
    + rewrite append_empty.
      assert (Hp : String.prefix sub (sub +:+ after) = true)
        by (apply prefix_append; by exists after).
      destruct (sub +:+ after);
        [rewrite includes_nil|rewrite includes_String]; by rewrite Hp.
    + rewrite append_String, includes_String, IH. apply orb_true_r.
Qed.

Lemma includes_empty (s : string) : includes s "" = true.
Proof. apply includes_spec. by exists "", s. Qed.

Lemma matchesQuery_spec (toLowerCase : string → string) (query : string)
    (t : Todo) :
  matchesQuery toLowerCase (toLowerCase query) t = true
  ↔ matchesCI toLowerCase query t.
Proof.
  unfold matchesQuery, matchesCI, containsCI.
  rewrite !orb_true_iff, !includes_spec. tauto.
Qed.

Lemma elem_of_List_filter {A} (f : A → bool) (l : list A) (x : A) :
  x ∈ List.filter f l ↔ x ∈ l ∧ f x = true.
Proof. rewrite !list_elem_of_In. apply List.filter_In. Qed.

Lemma List_filter_sublist {A} (f : A → bool) (l : list A) :
  sublist (List.filter f l) l.
Proof.
  induction l as [|x l IH]; simpl; [constructor|].
  destruct (f x); by constructor.
Qed.

Lemma List_filter_all {A} (f : A → bool) (l : list A) :
  (∀ x, x ∈ l → f x = true) → List.filter f l = l.
Proof.
  induction l as [|x l IH]; intros Hl; simpl; [done|].
  rewrite (Hl x) by left. f_equal. apply IH. intros y Hy. apply Hl. by right.
Qed.

Lemma List_filter_none {A} (f : A → bool) (l : list A) :
  (∀ x, x ∈ l → f x ≠ true) → List.filter f l = [].
Proof.
  induction l as [|x l IH]; intros Hl; simpl; [done|].
  destruct (f x) eqn:Hx; [by destruct (Hl x); [left|]|].
  apply IH. intros y Hy. apply Hl. by right.
Qed.

(** C7. For every collection and query, the filter step keeps, in their
    order, exactly the entities one of whose fields [name], [description],
    [dueDate], [dueTime] contains the query once both are lower-cased; the
    empty query (which lower-cases to itself) keeps every entity; a query
    that no field of any entity contains keeps none. *)
Theorem filteredTodos_keeps_matches (toLowerCase : string → string)
    (todos : list Todo) (searchQuery : string) :
  (∀ t, matchesQuery toLowerCase (toLowerCase searchQuery) t = true
        ↔ matchesCI toLowerCase searchQuery t)
  ∧ filteredTodos toLowerCase todos searchQuery
    = List.filter (matchesQuery toLowerCase (toLowerCase searchQuery)) todos
  ∧ (∀ t, t ∈ filteredTodos toLowerCase todos searchQuery
          ↔ t ∈ todos ∧ matchesCI toLowerCase searchQuery t)
  ∧ sublist (filteredTodos toLowerCase todos searchQuery) todos
  ∧ (toLowerCase "" = "" → filteredTodos toLowerCase todos "" = todos)
  ∧ ((∀ t, t ∈ todos → ¬ matchesCI toLowerCase searchQuery t) →
     filteredTodos toLowerCase todos searchQuery = []).
Proof.
  split; [intros t; apply matchesQuery_spec|]. split; [done|].
  split; [|split; [|split]].
  - intros t. unfold filteredTodos.
    by rewrite elem_of_List_filter, matchesQuery_spec.
  - apply List_filter_sublist.
  - intros Hempty. unfold filteredTodos. rewrite Hempty.
    apply List_filter_all. intros t _. unfold matchesQuery.
    by rewrite includes_empty.
  - intros Hnone. unfold filteredTodos. apply List_filter_none.
    intros t Ht Hm. apply (Hnone t Ht). by apply matchesQuery_spec.
Qed.

Lemma filteredTodos_keeps_matches_witness :
  ascii_toLowerCase "" = ""
  ∧ filteredTodos ascii_toLowerCase [milk; bread] "" = [milk; bread].
Proof.
  assert (H : ascii_toLowerCase "" = "") by reflexivity.
  split; [exact H|].
  destruct (filteredTodos_keeps_matches ascii_toLowerCase [milk; bread] "")
    as (_ & _ & _ & _ & Hall & _).
  exact (Hall H).
Defined.

(** The filter on ASCII text: the case of the query does not matter, the
    date and the time are searched too, and a query found nowhere leaves
    nothing. *)
Lemma filteredTodos_examples :
  filteredTodos ascii_toLowerCase [milk; bread] "MILK" = [milk]
  ∧ filteredTodos ascii_toLowerCase [milk; bread] "b" = [milk; bread]
  ∧ filteredTodos ascii_toLowerCase [milk; bread] "01-02" = [bread]
  ∧ filteredTodos ascii_toLowerCase [milk; bread] "09:" = [milk]
  ∧ filteredTodos ascii_toLowerCase [milk; bread] "cheese" = [].
Proof. repeat split. Qed.

(** ** The remote adapter *)

Lemma digit_isDigit (n : Z) : isDigit (digit n) = true.
Proof.
  unfold digit. pose proof (Z.mod_pos_bound n 10 eq_refl) as Hb.
  set (r := (n mod 10)%Z) in *. clearbody r.
  assert (r = 0 ∨ r = 1 ∨ r = 2 ∨ r = 3 ∨ r = 4 ∨ r = 5 ∨ r = 6 ∨ r = 7
          ∨ r = 8 ∨ r = 9)%Z as Hr by lia.
  repeat destruct Hr as [->|Hr]; try subst r; reflexivity.
Qed.

Lemma split_head_digit (sep : ascii) (n : Z) (rest : string) :
  isDigit sep = false →
  split_head sep (String (digit n) rest)
  = String (digit n) (split_head sep rest).
Proof.
  intros Hsep. simpl. destruct (Ascii.eqb_spec (digit n) sep) as [Heq|]; [|done].
  by rewrite <- Heq, digit_isDigit in Hsep.
Qed.

Lemma split_head_other (sep c : ascii) (rest : string) :
  Ascii.eqb c sep = false →
  split_head sep (String c rest) = String c (split_head sep rest).
Proof. intros Hc. simpl. by rewrite Hc. Qed.

Lemma split_head_hit (sep : ascii) (rest : string) :
  split_head sep (String sep rest) = "".
Proof. simpl. by rewrite Ascii.eqb_refl. Qed.

Ltac string_normal :=
  unfold pad; cbn [digits];
  repeat (rewrite append_String || rewrite append_empty).

Ltac split_head_steps :=
  repeat first [ rewrite split_head_digit by reflexivity
               | rewrite split_head_other by reflexivity ];
  rewrite split_head_hit.

(** *** The calendar fields *)

Section Calendar.
Local Open Scope Z_scope.

(** [YearFromTime t] is the year whose days hold the day of [t]. *)
Lemma YearFromTime_spec (t : Z) :
  DayFromYear (YearFromTime t) ≤ Day t < DayFromYear (YearFromTime t + 1).
Proof.
  unfold YearFromTime. set (D := Day t). clearbody D.
  destruct (Z.ltb_spec D (DayFromYear (1970 + D * 400 / 146097))) as [H1|H1];
    [|destruct (Z.leb_spec (DayFromYear (1970 + D * 400 / 146097 + 1)) D)
        as [H2|H2]];
    unfold DayFromYear in *; Z.div_mod_to_equations; lia.
Qed.

Lemma DayFromYear_succ (y : Z) :
  DayFromYear (y + 1) = DayFromYear y + DaysInYear y.
Proof.
  unfold DayFromYear, DaysInYear.
  destruct (Z.eqb_spec (y mod 4) 0), (Z.eqb_spec (y mod 100) 0),
    (Z.eqb_spec (y mod 400) 0); cbn [negb];
    Z.div_mod_to_equations; lia.
Qed.

Lemma DayWithinYear_range (t : Z) :
  0 ≤ DayWithinYear t < DaysInYear (YearFromTime t).
Proof.
  unfold DayWithinYear. pose proof (YearFromTime_spec t) as H.
  rewrite DayFromYear_succ in H. lia.
Qed.

Lemma DaysInYear_cases (y : Z) : DaysInYear y = 365 ∨ DaysInYear y = 366.
Proof. unfold DaysInYear. repeat destruct (negb _); auto. Qed.

Lemma MonthFromTime_range (t : Z) : 0 ≤ MonthFromTime t ≤ 11.
Proof. unfold MonthFromTime. repeat destruct (_ <? _); lia. Qed.

Lemma DateFromTime_range (t : Z) : 1 ≤ DateFromTime t ≤ 31.
Proof.
  pose proof (DayWithinYear_range t) as Hd.
  unfold DateFromTime, MonthFromTime, InLeapYear in *.
  destruct (DaysInYear_cases (YearFromTime t)) as [Hy|Hy]; rewrite Hy in *;
    repeat (match goal with
            | |- context [?a <? ?b] => destruct (Z.ltb_spec a b)
            end); simpl; lia.
Qed.

(** From 0000-01-01T00:00:00.000Z to 9999-12-31T23:59:59.999Z the year
    has four digits. *)
Lemma YearFromTime_four_digits (t : Z) :
  -62167219200000 ≤ t < 253402300800000 → 0 ≤ YearFromTime t ≤ 9999.
Proof.
  intros Ht. pose proof (YearFromTime_spec t) as H.
  assert (HD : -719528 ≤ Day t < 2932897).
  { unfold Day, msPerDay. Z.div_mod_to_equations; lia. }
  set (y := YearFromTime t) in *. clearbody y.
  unfold DayFromYear in H. Z.div_mod_to_equations; lia.
Qed.
End Calendar.

Lemma toISOString_examples :
  toISOString 0 = "1970-01-01T00:00:00.000Z"
  ∧ toISOString 951782400000 = "2000-02-29T00:00:00.000Z"
  ∧ toISOString 1700000000000 = "2023-11-14T22:13:20.000Z"
  ∧ toISOString 1735689599999 = "2024-12-31T23:59:59.999Z"
  ∧ toISOString (-1) = "1969-12-31T23:59:59.999Z"
  ∧ toISOString 253402300800000 = "+010000-01-01T00:00:00.000Z".
Proof. repeat split; vm_compute; reflexivity. Qed.

(** The date part of [toISOString] is what comes before its ["T"]. *)
Lemma split_T_toISOString (t : Z) :
  split_head "T" (toISOString t) = isoDate t.
Proof.
  unfold toISOString, isoDate, isoYear.
  destruct (_ && _); [|destruct (_ <? _)%Z]; string_normal;
    by split_head_steps.
Qed.

Lemma isoDate_shape (t : Z) :
  (-62167219200000 ≤ t < 253402300800000)%Z →
  is_YYYY_MM_DD (isoDate t) = true.
Proof.
  intros [Hlo Hhi]%YearFromTime_four_digits. unfold isoDate, isoYear.
  apply Z.leb_le in Hlo, Hhi. rewrite Hlo, Hhi. cbn [andb]. string_normal.
  unfold is_YYYY_MM_DD. cbn [String.list_ascii_of_string].
  by rewrite !digit_isDigit.
Qed.

(** The sibling path: the form stores its time of day as [HH:MM:SS]. *)
Lemma formDueTime_shape (h m s : Z) (zone : string) :
  formDueTime h m s zone = pad 2 h +:+ ":" +:+ pad 2 m +:+ ":" +:+ pad 2 s
  ∧ is_HH_MM_SS (formDueTime h m s zone) = true.
Proof.
  assert (Heq : formDueTime h m s zone
                = pad 2 h +:+ ":" +:+ pad 2 m +:+ ":" +:+ pad 2 s).
  { unfold formDueTime, toTimeString. string_normal. by split_head_steps. }
  split; [exact Heq|]. rewrite Heq. string_normal.
  unfold is_HH_MM_SS. cbn [String.list_ascii_of_string].
  by rewrite !digit_isDigit.
Qed.

Lemma formDueTime_example :
  formDueTime 9 5 0 "GMT+0100 (Central European Standard Time)" = "09:05:00".
Proof. reflexivity. Qed.

(** C8. On success [fetchTodos] gives one entity per remote record, in
    order; the entity has the decimal numeral of the record's [id], its
    [title] as [name], its [completed] flag, the empty [description], no
    trace of [userId], and as [dueDate] the UTC date of the clock reading
    taken for that record, which has the form [YYYY-MM-DD] from the year 0 to
    the year 9999. Its [dueTime] is the five characters [00:00]: hours and minutes
    without seconds, where the data model and the form have [HH:MM:SS]. *)
Theorem fetchTodos_maps_records (clock : nat → Z)
    (data : list Api.ApiTodo) :
  ∃ result,
    fetchTodos clock (inr data) = inr result
    ∧ length result = length data
    ∧ ∀ k r, data !! k = Some r →
        ∃ t, result !! k = Some t
          ∧ id t = Number_toString (Api.id r)
          ∧ name t = Api.title r
          ∧ completed t = Api.completed r
          ∧ description t = ""
          ∧ dueDate t = isoDate (clock k)
          ∧ ((-62167219200000 ≤ clock k < 253402300800000)%Z →
             is_YYYY_MM_DD (dueDate t) = true)
          ∧ dueTime t = "00:00"
          ∧ is_HH_MM_SS (dueTime t) = false
          ∧ dueTime t ≠ "00:00:00".
Proof.
  eexists. split; [reflexivity|]. split; [apply length_imap|].
  intros k r Hk. eexists. split.
  { rewrite list_lookup_imap, Hk. reflexivity. }
  simpl. rewrite split_T_toISOString.
  repeat split; try done. apply isoDate_shape.
Qed.

Lemma fetchTodos_maps_records_witness :
  (-62167219200000 ≤ 1700000000000 < 253402300800000)%Z
  ∧ fetchTodos (λ _, 1700000000000%Z)
      (inr [Api.mkApiTodo 1 1 "delectus aut autem" false])
    = inr [ {| id := "1"; name := "delectus aut autem"; description := "";
               dueDate := "2023-11-14"; dueTime := "00:00";
               completed := false |} ]
  ∧ is_YYYY_MM_DD "2023-11-14" = true.
Proof.
  assert (Hy : (-62167219200000 ≤ 1700000000000 < 253402300800000)%Z)
    by lia.
  split; [exact Hy|]. split; [vm_compute; reflexivity|].
  destruct (fetchTodos_maps_records (λ _, 1700000000000%Z)
              [Api.mkApiTodo 1 1 "delectus aut autem" false])
    as (result & Hres & _ & Hmap).
  destruct (Hmap 0 (Api.mkApiTodo 1 1 "delectus aut autem" false) eq_refl)
    as (t & _ & _ & _ & _ & _ & Hdate & Hshape & _).
  rewrite Hdate in Hshape. exact (Hshape Hy).
Defined.

(** * Further properties of the store *)

Lemma filter_all_kept {A} (P : A → Prop) `{∀ x, Decision (P x)}
    (l : list A) :
  (∀ x, x ∈ l → P x) → filter P l = l.
Proof.
  induction l as [|x l IH]; intros Hl; [done|].
  rewrite filter_cons_True by (apply Hl; left).
  f_equal. apply IH. intros y Hy. apply Hl. by right.
Qed.

(** ** deleteTodo *)

Lemma filter_keeps_sublist {A} (P : A → Prop) `{∀ x, Decision (P x)}
    (r l : list A) :
  sublist r l → sublist (filter P r) (filter P l).
Proof.
  induction 1 as [|x r l _ IH|x r l _ IH]; [done| |].
  - rewrite !filter_cons. destruct (decide (P x)); [by constructor|done].
  - rewrite filter_cons. destruct (decide (P x)); [by constructor|done].
Qed.

(** X1. [deleteTodo] keeps, in their order, exactly the entities whose id is
    not the given one: what is left is a sub-sequence of the collection
    without that id, every sub-sequence of the collection without that id is
    a sub-sequence of it, the entities under any other id are the same
    before and after, and the number of entities drops by the number of
    entities under the given id. No other field of the state changes; the
    state itself is returned when the id is absent, and a second delete of
    the same id changes nothing. *)
Theorem deleteTodo_removes_every_match (s : TodoState) (i : string) :
  (∀ t, t ∈ todos (deleteTodo s i) ↔ t ∈ todos s ∧ id t ≠ i)
  ∧ sublist (todos (deleteTodo s i)) (todos s)
  ∧ (∀ r, sublist r (todos s) → (∀ t, t ∈ r → id t ≠ i) →
          sublist r (todos (deleteTodo s i)))
  ∧ (∀ j, j ≠ i →
          filter (λ t, id t = j) (todos (deleteTodo s i))
          = filter (λ t, id t = j) (todos s))
  ∧ length (todos (deleteTodo s i))
    + length (filter (λ t, id t = i) (todos s)) = length (todos s)
  ∧ deleteTodo s i = set_todos (todos (deleteTodo s i)) s
  ∧ (i ∉ ids (todos (deleteTodo s i)))
  ∧ (i ∉ ids (todos s) → deleteTodo s i = s)
  ∧ deleteTodo (deleteTodo s i) i = deleteTodo s i.
Proof.
  assert (Hgone : i ∉ ids (todos (deleteTodo s i))).
  { simpl. intros [t [Heq [Hne _]%list_elem_of_filter]]%list_elem_of_fmap.
    by apply Hne. }
  split; [|split; [|split; [|split; [|split; [|split;
    [done|split; [done|split]]]]]]].
  - intros t. simpl. rewrite list_elem_of_filter. tauto.
  - apply sublist_filter.
  - intros r Hsub Hr. simpl.
    rewrite <- (filter_all_kept (λ t, id t ≠ i) r) by done.
    by apply filter_keeps_sublist.
  - intros j Hj. simpl. rewrite list_filter_filter.
    apply list_filter_iff. intros t. split; [tauto|].
    intros Heq. split; [done|]. by rewrite Heq.
  - simpl.
    pose proof (filter_app_complement (λ t, id t = i) (todos s)) as Hp.
    apply Permutation_length in Hp. rewrite length_app in Hp.
    change (filter (λ t, ¬ id t = i) (todos s))
      with (filter (λ t, id t ≠ i) (todos s)) in Hp. lia.
  - intros Hout. unfold deleteTodo.
    rewrite filter_all_kept; [apply set_todos_id|].
    intros t Ht Heq. apply Hout. rewrite <- Heq. by apply elem_of_ids.
  - unfold deleteTodo at 1. rewrite filter_all_kept.
    + by destruct s.
    + intros t [Hne _]%list_elem_of_filter. done.
Qed.

Lemma deleteTodo_removes_every_match_witness :
  "2" ≠ "1"
  ∧ filter (λ t, id t = "2")
      (todos (deleteTodo (storeOf [milk; bread; milkChanged; bread]) "1"))
    = [bread; bread]
  ∧ ("3" ∉ ids (todos (storeOf [milk; bread])))
  ∧ deleteTodo (storeOf [milk; bread]) "3" = storeOf [milk; bread].
Proof.
  assert (Hne : "2" ≠ "1") by discriminate.
  assert (Hout : "3" ∉ ids (todos (storeOf [milk; bread]))).
  { intros Hin. apply elem_of_cons in Hin as [Hin|Hin]; [discriminate Hin|].
    apply list_elem_of_singleton in Hin. discriminate Hin. }
  split; [exact Hne|]. split; [|split; [exact Hout|]].
  - destruct (deleteTodo_removes_every_match
                (storeOf [milk; bread; milkChanged; bread]) "1")
      as (_ & _ & _ & Hsame & _).
    rewrite (Hsame "2" Hne). reflexivity.
  - destruct (deleteTodo_removes_every_match (storeOf [milk; bread]) "3")
      as (_ & _ & _ & _ & _ & _ & _ & Habsent & _).
    exact (Habsent Hout).
Defined.

(** X2. Adding an entity under an id that the store does not hold and then
    deleting that id gives back the state before the add. *)
Theorem addTodo_then_deleteTodo (s : TodoState) (t : Todo) :
  id t ∉ ids (todos s) → deleteTodo (addTodo s t) (id t) = s.
Proof.
  intros Hfresh. unfold deleteTodo, addTodo. simpl.
  rewrite filter_app, filter_cons_False, filter_nil, app_nil_r by (by intros ?).
  rewrite filter_all_kept; [by destruct s|].
  intros u Hu Heq. apply Hfresh. rewrite <- Heq. by apply elem_of_ids.
Qed.

Lemma addTodo_then_deleteTodo_witness :
  (id bread ∉ ids (todos (storeOf [milk])))
  ∧ deleteTodo (addTodo (storeOf [milk]) bread) (id bread) = storeOf [milk].
Proof.
  assert (Hfresh : id bread ∉ ids (todos (storeOf [milk]))).
  { intros Hin%list_elem_of_singleton. discriminate Hin. }
  split; [exact Hfresh|]. exact (addTodo_then_deleteTodo _ _ Hfresh).
Defined.

(** ** updateTodo *)

(** X3. [updateTodo] never changes which ids the store holds nor their
    order; when the id of the payload is in the store, looking that id up
    afterwards finds the payload; and a second update with the same payload
    changes nothing. *)
Theorem updateTodo_then_lookup (s : TodoState) (t : Todo) :
  ids (todos (updateTodo s t)) = ids (todos s)
  ∧ (id t ∈ ids (todos s) →
     ∃ k, find (λ todo, id todo = id t) (todos (updateTodo s t))
          = Some (k, t))
  ∧ updateTodo (updateTodo s t) t = updateTodo s t.
Proof.
  split; [apply ids_updateTodo|].
  destruct (list_find (λ todo, id todo = id t) (todos s)) as [[k old]|]
    eqn:Hfind.
  - assert (Hafter : list_find (λ todo, id todo = id t)
                       (todos (updateTodo s t)) = Some (k, t)).
    { rewrite (updateTodo_found s t old k Hfind). simpl.
      by apply (find_after_write _ _ _ old). }
    split; [intros _; by exists k|].
    rewrite (updateTodo_found _ t t k Hafter).
    rewrite (updateTodo_found s t old k Hfind). simpl.
    by rewrite list_insert_insert_eq.
  - split.
    + intros [u [Heq Hu]]%list_elem_of_fmap.
      apply list_find_None in Hfind. rewrite Forall_forall in Hfind.
      by destruct (Hfind u Hu).
    + by rewrite !(updateTodo_absent s t Hfind).
Qed.

Lemma updateTodo_then_lookup_witness :
  id milkChanged ∈ ids (todos (storeOf [bread; milk]))
  ∧ ∃ k, find (λ todo, id todo = id milkChanged)
           (todos (updateTodo (storeOf [bread; milk]) milkChanged))
         = Some (k, milkChanged).
Proof.
  assert (Hin : id milkChanged ∈ ids (todos (storeOf [bread; milk]))).
  { right. left. }
  split; [exact Hin|].
  destruct (updateTodo_then_lookup (storeOf [bread; milk]) milkChanged)
    as (_ & Hfound & _).
  exact (Hfound Hin).
Defined.

(** ** The buttons of an item *)

(** In a collection with unique ids the entity at position [k] is the only
    one with its id. *)
Lemma unique_id_position (l : list Todo) (k j : nat) (t u : Todo) :
  NoDup (ids l) → l !! k = Some t → l !! j = Some u → id u = id t → j = k.
Proof.
  intros Hnd Hk Hj Heq.
  apply (NoDup_lookup (ids l) j k (id t)); [done| |].
  - unfold ids. by rewrite list_lookup_fmap, Hj, <- Heq.
  - unfold ids. by rewrite list_lookup_fmap, Hk.
Qed.

Lemma filter_drops_position (l : list Todo) (k : nat) (t : Todo) :
  NoDup (ids l) → l !! k = Some t →
  filter (λ todo, id todo ≠ id t) l = take k l ++ drop (S k) l.
Proof.
  revert k. induction l as [|x l IH]; intros k Hnd Hk; [done|].
  unfold ids in Hnd. rewrite fmap_cons in Hnd.
  apply NoDup_cons in Hnd as [Hx Hnd].
  destruct k as [|k]; simpl in Hk.
  - injection Hk as ->. rewrite filter_cons_False by (by intros ?).
    simpl. rewrite drop_0. apply filter_all_kept.
    intros u Hu Heq. apply Hx. rewrite <- Heq. by apply elem_of_ids.
  - rewrite filter_cons_True.
    + simpl. f_equal. by apply IH.
    + intros Heq. apply Hx. rewrite Heq. apply elem_of_ids.
      by eapply list_elem_of_lookup_2.
Qed.

(** X4. In a store with unique ids, the Delete button of the item shown for
    the entity at position [k] removes that entity and no other: the
    collection afterwards is the one before without position [k]. *)
Theorem handleDelete_removes_the_item (s : TodoState) (k : nat) (t : Todo) :
  NoDup (ids (todos s)) → todos s !! k = Some t →
  todos (storeAfter (TodoItem.handleDelete t) s)
  = take k (todos s) ++ drop (S k) (todos s)
  ∧ length (todos (storeAfter (TodoItem.handleDelete t) s))
    = pred (length (todos s)).
Proof.
  intros Hnd Hk.
  assert (Heq : todos (storeAfter (TodoItem.handleDelete t) s)
                = take k (todos s) ++ drop (S k) (todos s))
    by (by apply filter_drops_position).
  split; [done|]. rewrite Heq.
  apply lookup_lt_Some in Hk.
  rewrite length_app, length_take, length_drop. lia.
Qed.

Lemma handleDelete_removes_the_item_witness :
  NoDup (ids (todos (storeOf [milk; bread])))
  ∧ todos (storeOf [milk; bread]) !! 0 = Some milk
  ∧ todos (storeAfter (TodoItem.handleDelete milk) (storeOf [milk; bread]))
    = [bread].
Proof.
  assert (Hnd : NoDup (ids (todos (storeOf [milk; bread])))).
  { apply (bool_decide_unpack _). vm_compute. exact I. }
  split; [exact Hnd|]. split; [reflexivity|].
  destruct (handleDelete_removes_the_item (storeOf [milk; bread]) 0 milk Hnd
              eq_refl) as [Heq _].
  exact Heq.
Defined.

(** X5. In a store with unique ids, the toggle button of the item shown for
    the entity at position [k] flips the [completed] flag of that entity and
    leaves every other field and every other entity as it is. *)
Theorem handleToggle_flips_the_item (s : TodoState) (k : nat) (t : Todo) :
  NoDup (ids (todos s)) → todos s !! k = Some t →
  storeAfter (TodoItem.handleToggle t) s
  = set_todos (<[k := set_completed (negb (completed t)) t]> (todos s)) s.
Proof.
  intros Hnd Hk. unfold storeAfter. simpl.
  apply toggleTodo_found, first_match_find; [done|done|].
  intros j u Hlt Hj Heq.
  assert (j = k) by by eapply unique_id_position. lia.
Qed.

Lemma handleToggle_flips_the_item_witness :
  NoDup (ids (todos (storeOf [milk; bread])))
  ∧ todos (storeOf [milk; bread]) !! 1 = Some bread
  ∧ todos (storeAfter (TodoItem.handleToggle bread) (storeOf [milk; bread]))
    = [milk; set_completed true bread].
Proof.
  assert (Hnd : NoDup (ids (todos (storeOf [milk; bread])))).
  { apply (bool_decide_unpack _). vm_compute. exact I. }
  split; [exact Hnd|]. split; [reflexivity|].
  rewrite (handleToggle_flips_the_item (storeOf [milk; bread]) 1 bread Hnd
             eq_refl).
  reflexivity.
Defined.

(** X6. When two entities share an id, the toggle button of the later one
    does not touch it: the flag that flips is that of the first entity with
    the id. *)
Theorem handleToggle_with_shared_id (s : TodoState) (j k : nat)
    (first later : Todo) :
  todos s !! j = Some first → todos s !! k = Some later → j < k →
  id first = id later →
  (∀ i u, i < j → todos s !! i = Some u → id u ≠ id later) →
  todos (storeAfter (TodoItem.handleToggle later) s) !! k = Some later
  ∧ todos (storeAfter (TodoItem.handleToggle later) s) !! j
    = Some (set_completed (negb (completed first)) first).
Proof.
  intros Hj Hk Hlt Heq Hfirst. unfold storeAfter. simpl.
  rewrite (toggleTodo_found s (id later) j first)
    by by apply first_match_find.
  simpl. split.
  - rewrite list_lookup_insert_ne by lia. done.
  - apply list_lookup_insert_eq. by eapply lookup_lt_Some.
Qed.

Lemma handleToggle_with_shared_id_witness :
  todos (storeOf [milk; bread; milkChanged]) !! 0 = Some milk
  ∧ todos (storeOf [milk; bread; milkChanged]) !! 2 = Some milkChanged
  ∧ todos (storeAfter (TodoItem.handleToggle milkChanged)
             (storeOf [milk; bread; milkChanged])) !! 2 = Some milkChanged
  ∧ todos (storeAfter (TodoItem.handleToggle milkChanged)
             (storeOf [milk; bread; milkChanged])) !! 0
    = Some (set_completed (negb (completed milk)) milk).
Proof.
  split; [reflexivity|]. split; [reflexivity|].
  apply (handleToggle_with_shared_id (storeOf [milk; bread; milkChanged])
           0 2 milk milkChanged eq_refl eq_refl);
    [lia|reflexivity|intros i u Hi; lia].
Defined.

(** ** More on mergeTodos *)

Lemma NoDup_ids_mergeTodos (s : TodoState) (incoming : list Todo) :
  NoDup (ids (todos s)) → NoDup (ids incoming) →
  NoDup (ids (todos (mergeTodos s incoming))).
Proof.
  intros Hs Hinc. rewrite mergeTodos_todos, ids_app. apply NoDup_app.
  split; [done|]. split.
  - intros i Hi [t [-> [Hid _]%list_elem_of_filter]]%list_elem_of_fmap. done.
  - apply (sublist_NoDup _ (ids incoming)); [done|].
    apply fmap_sublist, sublist_filter.
Qed.

(** X7. After [mergeTodos] the store holds every incoming id: its ids are
    those it had and those that came in. The collection never shrinks and
    grows by at most the number of incoming entities; an empty incoming
    sequence leaves the state as it is, and an empty store takes the
    incoming sequence whole. *)
Theorem mergeTodos_covers_incoming (s : TodoState) (incoming : list Todo) :
  (∀ i, i ∈ ids (todos (mergeTodos s incoming))
        ↔ i ∈ ids (todos s) ∨ i ∈ ids incoming)
  ∧ (length (todos s) ≤ length (todos (mergeTodos s incoming)))%nat
  ∧ (length (todos (mergeTodos s incoming))
     ≤ length (todos s) + length incoming)%nat
  ∧ mergeTodos s [] = s
  ∧ (todos s = [] → todos (mergeTodos s incoming) = incoming).
Proof.
  split; [intros i; apply elem_of_ids_mergeTodos|].
  rewrite mergeTodos_todos, length_app.
  split; [lia|]. split; [|split].
  - pose proof (length_filter (λ t, id t ∉ ids (todos s)) incoming). lia.
  - rewrite mergeTodos_state, filter_nil, app_nil_r. apply set_todos_id.
  - intros Hempty. rewrite Hempty. simpl. apply filter_all_kept.
    intros t _. apply not_elem_of_nil.
Qed.

Lemma mergeTodos_covers_incoming_witness :
  todos initialState = []
  ∧ todos (mergeTodos initialState [milk; milkChanged; bread])
    = [milk; milkChanged; bread].
Proof.
  split; [reflexivity|].
  destruct (mergeTodos_covers_incoming initialState
              [milk; milkChanged; bread]) as (_ & _ & _ & _ & Hwhole).
  exact (Hwhole eq_refl).
Defined.

(** X8. One merge of two batches at once appends the new entities of the
    first and then those of the second that are new to the store; when every
    id the two batches share is already in the store, that is the state
    reached by merging the first batch and then the second. *)
Theorem mergeTodos_batches (s : TodoState) (A B : list Todo) :
  todos (mergeTodos s (A ++ B))
  = todos (mergeTodos s A) ++ filter (λ t, id t ∉ ids (todos s)) B
  ∧ ((∀ a b, a ∈ A → b ∈ B → id a = id b → id a ∈ ids (todos s)) →
     mergeTodos s (A ++ B) = mergeTodos (mergeTodos s A) B).
Proof.
  assert (Happ : todos (mergeTodos s (A ++ B))
    = todos (mergeTodos s A) ++ filter (λ t, id t ∉ ids (todos s)) B)
    by (by rewrite !mergeTodos_todos, filter_app, app_assoc).
  split; [done|]. intros Hshared.
  apply TodoState_eq; try done. rewrite Happ.
  rewrite (mergeTodos_todos (mergeTodos s A)). f_equal.
  apply filter_ext_elem. intros b Hb. rewrite elem_of_ids_mergeTodos.
  split; [|tauto].
  intros Hout [?|[a [Heq Ha]]%list_elem_of_fmap]; [done|].
  apply Hout. rewrite Heq. by apply (Hshared a b).
Qed.

Lemma mergeTodos_batches_witness :
  (∀ a b, a ∈ [bread] → b ∈ [milkChanged] → id a = id b →
          id a ∈ ids (todos (storeOf [milk])))
  ∧ mergeTodos (storeOf [milk]) ([bread] ++ [milkChanged])
    = mergeTodos (mergeTodos (storeOf [milk]) [bread]) [milkChanged].
Proof.
  assert (H : ∀ a b, a ∈ [bread] → b ∈ [milkChanged] → id a = id b →
                     id a ∈ ids (todos (storeOf [milk]))).
  { intros a b Ha%list_elem_of_singleton Hb%list_elem_of_singleton Heq.
    subst a b. discriminate Heq. }
  split; [exact H|].
  destruct (mergeTodos_batches (storeOf [milk]) [bread] [milkChanged])
    as [_ Hseq].
  exact (Hseq H).
Defined.

(** ** The fetch button, end to end *)

Lemma todos_after_fetch (fetchedTodos : list Todo) (s : TodoState) :
  todos (store (runFetch [] (inr fetchedTodos) s).1)
  = todos (mergeTodos s fetchedTodos).
Proof. reflexivity. Qed.

Lemma ids_fetchTodos (clock : nat → Z) (data : list Api.ApiTodo)
    (result : list Todo) :
  fetchTodos clock (inr data) = inr result →
  ids result = (λ r, Number_toString (Api.id r)) <$> data.
Proof.
  intros [= <-]. unfold ids. apply list_eq. intros k.
  rewrite !list_lookup_fmap, list_lookup_imap.
  by destruct (data !! k).
Qed.

(** X9. Remote records whose numbers are safe integers and pairwise
    distinct become entities with pairwise distinct ids, and a fetch of such
    records into a store with unique ids leaves a store with unique ids. *)
Theorem fetch_keeps_ids_unique (clock : nat → Z) (data : list Api.ApiTodo)
    (s : TodoState) :
  Forall (λ r, isSafeInteger (Api.id r) = true) data →
  NoDup (Api.id <$> data) → NoDup (ids (todos s)) →
  ∃ fetched,
    fetchTodos clock (inr data) = inr fetched
    ∧ NoDup (ids fetched)
    ∧ NoDup (ids (todos (store
               (runFetch [] (fetchTodos clock (inr data)) s).1))).
Proof.
  intros _ Hdata Hs. eexists. split; [reflexivity|].
  assert (Hf : NoDup (ids (imap (λ k todo,
      {| id := Number_toString (Api.id todo); name := Api.title todo;
         description := "";
         dueDate := split_head "T" (toISOString (clock k));
         dueTime := "00:00"; completed := Api.completed todo |}) data))).
  { rewrite (ids_fetchTodos clock data _ eq_refl).
    rewrite (list_fmap_compose Api.id Number_toString).
    unfold Number_toString. by apply (NoDup_fmap_2 _). }
  split; [exact Hf|].
  unfold fetchTodos. rewrite todos_after_fetch.
  by apply NoDup_ids_mergeTodos.
Qed.

Lemma fetch_keeps_ids_unique_witness :
  Forall (λ r, isSafeInteger (Api.id r) = true)
    [Api.mkApiTodo 1 1 "delectus aut autem" false;
     Api.mkApiTodo 1 2 "quis ut nam" true]
  ∧ NoDup (Api.id <$> [Api.mkApiTodo 1 1 "delectus aut autem" false;
                       Api.mkApiTodo 1 2 "quis ut nam" true])
  ∧ NoDup (ids (todos (storeOf [milk])))
  ∧ ∃ fetched,
      fetchTodos (λ _, 1700000000000%Z)
        (inr [Api.mkApiTodo 1 1 "delectus aut autem" false;
              Api.mkApiTodo 1 2 "quis ut nam" true]) = inr fetched
      ∧ NoDup (ids fetched)
      ∧ NoDup (ids (todos (store
          (runFetch [] (fetchTodos (λ _, 1700000000000%Z)
             (inr [Api.mkApiTodo 1 1 "delectus aut autem" false;
                   Api.mkApiTodo 1 2 "quis ut nam" true]))
             (storeOf [milk])).1))).
Proof.
  assert (H0 : Forall (λ r, isSafeInteger (Api.id r) = true)
                 [Api.mkApiTodo 1 1 "delectus aut autem" false;
                  Api.mkApiTodo 1 2 "quis ut nam" true]).
  { repeat constructor. }
  assert (H1 : NoDup (Api.id <$> [Api.mkApiTodo 1 1 "delectus aut autem" false;
                                  Api.mkApiTodo 1 2 "quis ut nam" true])).
  { apply (bool_decide_unpack _). vm_compute. exact I. }
  assert (H2 : NoDup (ids (todos (storeOf [milk])))).
  { apply (bool_decide_unpack _). vm_compute. exact I. }
  split; [exact H0|]. split; [exact H1|]. split; [exact H2|].
  exact (fetch_keeps_ids_unique _ _ _ H0 H1 H2).
Defined.

(** X10. A second fetch of the same remote records adds nothing and changes
    no entity, whatever the clock shows by then: the ids do not depend on
    the time of the fetch, and they are all in the store after the first. *)
Theorem fetch_again_changes_nothing (clock1 clock2 : nat → Z)
    (data : list Api.ApiTodo) (s : TodoState) :
  let once := store (runFetch [] (fetchTodos clock1 (inr data)) s).1 in
  let twice := store (runFetch [] (fetchTodos clock2 (inr data)) once).1 in
  todos twice = todos once.
Proof.
  intros once twice. subst once twice. unfold fetchTodos.
  rewrite todos_after_fetch, mergeTodos_todos, !todos_after_fetch.
  rewrite filter_none; [by rewrite app_nil_r|].
  intros t Ht Hnot. apply Hnot.
  apply elem_of_ids_mergeTodos. right.
  apply elem_of_ids in Ht.
  rewrite (ids_fetchTodos clock2 data _ eq_refl) in Ht.
  by rewrite (ids_fetchTodos clock1 data _ eq_refl).
Qed.

(** ** The form: trimming and validation *)

Local Abbreviation chars := String.list_ascii_of_string.

Section TrimProperties.

Variable isWhiteSpace : ascii → bool.

Local Abbreviation blank s := (Forall (λ c, isWhiteSpace c = true) (chars s)).
Local Abbreviation trimStart := (trimStart isWhiteSpace).
Local Abbreviation trimEnd := (trimEnd isWhiteSpace).
Local Abbreviation trim := (trim isWhiteSpace).

Lemma trimStart_split (s : string) :
  ∃ before, s = before +:+ trimStart s ∧ blank before.
Proof.
  induction s as [|c s (before & Heq & Hws)]; [by exists ""|].
  simpl. destruct (isWhiteSpace c) eqn:Hc.
  - exists (String c before). rewrite append_String, <- Heq.
    split; [done|]. by constructor.
  - by exists "".
Qed.

Lemma trimStart_head (s : string) (c : ascii) :
  head (chars (trimStart s)) = Some c → isWhiteSpace c = false.
Proof.
  induction s as [|x s IH]; simpl; [done|].
  destruct (isWhiteSpace x) eqn:Hx; [done|]. simpl. congruence.
Qed.

Lemma trimEnd_String (c : ascii) (s : string) :
  trimEnd (String c s)
  = match trimEnd s with
    | EmptyString => if isWhiteSpace c then EmptyString else String c ""
    | kept => String c kept
    end.
Proof. reflexivity. Qed.

Lemma trimEnd_split (s : string) :
  ∃ after, s = trimEnd s +:+ after ∧ blank after.
Proof.
  induction s as [|c s (after & Heq & Hws)]; [by exists ""|].
  rewrite trimEnd_String. destruct (trimEnd s) as [|y kept] eqn:Hkept.
  - rewrite append_empty in Heq. subst after.
    destruct (isWhiteSpace c) eqn:Hc.
    + exists (String c s). split; [done|]. by constructor.
    + by exists s.
  - exists after. by rewrite append_String, <- Heq.
Qed.

Lemma trimEnd_last (s : string) (c : ascii) :
  last (chars (trimEnd s)) = Some c → isWhiteSpace c = false.
Proof.
  induction s as [|x s IH]; [done|].
  rewrite trimEnd_String. destruct (trimEnd s) as [|y kept] eqn:Hkept.
  - destruct (isWhiteSpace x) eqn:Hx; simpl; [done|congruence].
  - intros Hlast. apply IH. revert Hlast. simpl.
    by destruct (chars kept).
Qed.

(** [trimEnd] keeps a first character that is not white space. *)
Lemma trimEnd_head (s : string) (c : ascii) :
  (∀ x, head (chars s) = Some x → isWhiteSpace x = false) →
  head (chars (trimEnd s)) = Some c → isWhiteSpace c = false.
Proof.
  destruct s as [|x s]; [done|]. intros Hhead.
  rewrite trimEnd_String. destruct (trimEnd s); simpl.
  - destruct (isWhiteSpace x) eqn:Hx; simpl; [done|congruence].
  - intros [= <-]. by apply Hhead.
Qed.

Lemma trimStart_fixed (s : string) :
  (∀ x, head (chars s) = Some x → isWhiteSpace x = false) → trimStart s = s.
Proof.
  destruct s as [|x s]; [done|]. intros Hhead. simpl.
  by rewrite (Hhead x).
Qed.

Lemma trimEnd_fixed (s : string) :
  (∀ x, last (chars s) = Some x → isWhiteSpace x = false) → trimEnd s = s.
Proof.
  induction s as [|x s IH]; [done|]. intros Hlast.
  rewrite trimEnd_String. destruct s as [|y s].
  - simpl. by rewrite (Hlast x).
  - rewrite IH; [done|]. intros z Hz. apply Hlast. revert Hz. simpl.
    by destruct (chars s).
Qed.

Lemma blank_append (a b : string) : blank a → blank b → blank (a +:+ b).
Proof.
  induction a as [|x a IH]; intros Ha Hb; [done|].
  rewrite append_String. simpl in *.
  apply Forall_cons in Ha as [Hx Ha]. constructor; [done|]. by apply IH.
Qed.

Lemma trimStart_blank (s : string) : blank s → trimStart s = "".
Proof.
  induction s as [|x s IH]; [done|]. simpl.
  intros [Hx Hs]%Forall_cons. rewrite Hx. by apply IH.
Qed.

Lemma trim_empty_iff (s : string) : trim s = "" ↔ blank s.
Proof.
  unfold trim. split.
  - intros Hempty.
    destruct (trimStart_split s) as (before & Heq & Hbefore).
    destruct (trimEnd_split (trimStart s)) as (after & Heq' & Hafter).
    rewrite Hempty, append_empty in Heq'. rewrite Heq, Heq'.
    by apply blank_append.
  - intros Hs. by rewrite trimStart_blank.
Qed.

(** X11. [trim] cuts white space off both ends and nothing else: the text
    is some white space, then the trimmed text, then some white space; the
    trimmed text neither starts nor ends with white space; it is empty
    exactly when the text is all white space; trimming it again changes
    nothing. *)
Theorem trim_cuts_both_ends (s : string) :
  (∃ before after,
     s = before +:+ trim s +:+ after ∧ blank before ∧ blank after)
  ∧ (∀ c, head (chars (trim s)) = Some c → isWhiteSpace c = false)
  ∧ (∀ c, last (chars (trim s)) = Some c → isWhiteSpace c = false)
  ∧ (trim s = "" ↔ blank s)
  ∧ trim (trim s) = trim s.
Proof.
  assert (Hhead : ∀ c, head (chars (trim s)) = Some c →
                       isWhiteSpace c = false).
  { intros c. apply trimEnd_head. intros x. apply trimStart_head. }
  assert (Hlast : ∀ c, last (chars (trim s)) = Some c →
                       isWhiteSpace c = false).
  { intros c. apply trimEnd_last. }
  split; [|split; [done|split; [done|split; [apply trim_empty_iff|]]]].
  - destruct (trimStart_split s) as (before & Heq & Hbefore).
    destruct (trimEnd_split (trimStart s)) as (after & Heq' & Hafter).
    exists before, after. split; [|done]. unfold trim.
    by rewrite <- Heq', <- Heq.
  - unfold trim at 1. rewrite trimStart_fixed by done.
    by apply trimEnd_fixed.
Qed.

End TrimProperties.

Lemma trim_cuts_both_ends_witness :
  head (chars (trim ascii_isWhiteSpace "  Buy milk ")) = Some "B"%char
  ∧ ascii_isWhiteSpace "B" = false.
Proof.
  assert (H : head (chars (trim ascii_isWhiteSpace "  Buy milk "))
              = Some "B"%char) by reflexivity.
  split; [exact H|].
  destruct (trim_cuts_both_ends ascii_isWhiteSpace "  Buy milk ")
    as (_ & Hhead & _).
  exact (Hhead _ H).
Defined.

Lemma handleSubmit_cases (isWhiteSpace : ascii → bool) (LocalTZA : Z → Z)
    (zoneName : Z → string) (initialTodo : option Todo) (onSubmit : bool)
    (now t1 t2 : Z) (st : Form.State) :
  handleSubmit isWhiteSpace LocalTZA zoneName initialTodo onSubmit now t1 t2
    st
  = if negb (isNameValid isWhiteSpace st && isDescriptionValid isWhiteSpace st)
    then {| Form.cells := (validateInputs isWhiteSpace st).1;
            Form.actions := []; Form.onSubmitReached := false |}
    else match initialTodo with
         | Some _ =>
             {| Form.cells := (validateInputs isWhiteSpace st).1;
                Form.actions :=
                  [UpdateTodo (todoData isWhiteSpace LocalTZA zoneName
                                 initialTodo now st)];
                Form.onSubmitReached := onSubmit |}
         | None =>
             {| Form.cells :=
                  resetForm t1 t2 (validateInputs isWhiteSpace st).1;
                Form.actions :=
                  [AddTodo (todoData isWhiteSpace LocalTZA zoneName
                              initialTodo now st)];
                Form.onSubmitReached := onSubmit |}
         end.
Proof. reflexivity. Qed.

Section FormProperties.

Variable isWhiteSpace : ascii → bool.
Variable LocalTZA : Z → Z.
Variable zoneName : Z → string.

Local Abbreviation blank s :=
  (Forall (λ c, isWhiteSpace c = true) (chars s)).
Local Abbreviation trim := (trim isWhiteSpace).
Local Abbreviation handleSubmit :=
  (handleSubmit isWhiteSpace LocalTZA zoneName).
Local Abbreviation todoData := (todoData isWhiteSpace LocalTZA zoneName).

Lemma valid_field (s : string) :
  (0 <? String.length (trim s))%nat = true ↔ ¬ blank s.
Proof.
  rewrite <- trim_empty_iff, Nat.ltb_lt.
  destruct (trim s); simpl; split; intros H;
    first [done | lia | by destruct H].
Qed.

Lemma invalid_field (s : string) :
  (0 <? String.length (trim s))%nat = false ↔ blank s.
Proof.
  rewrite <- trim_empty_iff, Nat.ltb_ge.
  destruct (trim s); simpl; split; intros H; first [done | lia].
Qed.

Lemma handleSubmit_invalid (initialTodo : option Todo) (onSubmit : bool)
    (now t1 t2 : Z) (st : Form.State) :
  isNameValid isWhiteSpace st && isDescriptionValid isWhiteSpace st = false →
  handleSubmit initialTodo onSubmit now t1 t2 st
  = {| Form.cells := (validateInputs isWhiteSpace st).1; Form.actions := [];
       Form.onSubmitReached := false |}.
Proof. intros Hbad. by rewrite handleSubmit_cases, Hbad. Qed.

Lemma handleSubmit_valid (initialTodo : option Todo) (onSubmit : bool)
    (now t1 t2 : Z) (st : Form.State) :
  isNameValid isWhiteSpace st && isDescriptionValid isWhiteSpace st = true →
  Form.actions (handleSubmit initialTodo onSubmit now t1 t2 st)
  = [match initialTodo with
     | Some _ => UpdateTodo (todoData initialTodo now st)
     | None => AddTodo (todoData initialTodo now st)
     end]
  ∧ Form.onSubmitReached (handleSubmit initialTodo onSubmit now t1 t2 st)
    = onSubmit.
Proof.
  intros Hok. rewrite handleSubmit_cases, Hok.
  by destruct initialTodo.
Qed.

(** X12. A submit with a name or a description that is empty or all white
    space dispatches nothing and does not reach [onSubmit]; the texts, the
    date and the time stay in the form, and each error flag is raised exactly
    for a blank field. *)
Theorem handleSubmit_rejects_blank (initialTodo : option Todo)
    (onSubmit : bool) (now t1 t2 : Z) (st : Form.State) :
  blank (Form.name st) ∨ blank (Form.description st) →
  let out := handleSubmit initialTodo onSubmit now t1 t2 st in
  Form.actions out = []
  ∧ Form.onSubmitReached out = false
  ∧ Form.name (Form.cells out) = Form.name st
  ∧ Form.description (Form.cells out) = Form.description st
  ∧ Form.date (Form.cells out) = Form.date st
  ∧ Form.time (Form.cells out) = Form.time st
  ∧ (Form.nameError (Form.cells out) = true ↔ blank (Form.name st))
  ∧ (Form.descriptionError (Form.cells out) = true
     ↔ blank (Form.description st)).
Proof.
  intros Hblank out. subst out. rewrite handleSubmit_invalid.
  - simpl. repeat split; try done;
      rewrite negb_true_iff; apply invalid_field.
  - apply andb_false_iff.
    destruct Hblank as [H|H]; [left|right]; by apply invalid_field.
Qed.

(** X13. A submit with a name and a description that are not blank
    dispatches exactly one action, [updateTodo] when the form edits an entity
    and [addTodo] otherwise. Its entity has the trimmed texts, both not
    empty, is not completed, has a [dueTime] of the form [HH:MM:SS] and as
    [dueDate] the UTC date of the form's date, of the form [YYYY-MM-DD] from
    the year 0 to the year 9999. *)
Theorem handleSubmit_dispatches_valid_entity (initialTodo : option Todo)
    (onSubmit : bool) (now t1 t2 : Z) (st : Form.State) :
  ¬ blank (Form.name st) → ¬ blank (Form.description st) →
  let out := handleSubmit initialTodo onSubmit now t1 t2 st in
  ∃ t,
    Form.actions out = [match initialTodo with
                        | Some _ => UpdateTodo t
                        | None => AddTodo t
                        end]
    ∧ Form.onSubmitReached out = onSubmit
    ∧ name t = trim (Form.name st) ∧ name t ≠ ""
    ∧ description t = trim (Form.description st) ∧ description t ≠ ""
    ∧ completed t = false
    ∧ is_HH_MM_SS (dueTime t) = true
    ∧ dueDate t = isoDate (Form.date st)
    ∧ ((-62167219200000 ≤ Form.date st < 253402300800000)%Z →
       is_YYYY_MM_DD (dueDate t) = true).
Proof.
  intros Hname Hdesc out. subst out.
  destruct (handleSubmit_valid initialTodo onSubmit now t1 t2 st)
    as [Hact Hreach].
  { apply andb_true_iff. split; by apply valid_field. }
  exists (todoData initialTodo now st).
  split; [exact Hact|]. split; [exact Hreach|]. simpl.
  split; [done|]. split; [by rewrite trim_empty_iff|].
  split; [done|]. split; [by rewrite trim_empty_iff|].
  split; [done|]. split.
  { apply (formDueTime_shape _ _ _ (zoneName (Form.time st))). }
  rewrite split_T_toISOString. split; [done|]. apply isoDate_shape.
Qed.

End FormProperties.

Lemma handleSubmit_rejects_blank_witness :
  let st := Form.mkState "   " "2%" 1700000000000 1700000000000 false false
              false false in
  (Forall (λ c, ascii_isWhiteSpace c = true) (chars (Form.name st))
   ∨ Forall (λ c, ascii_isWhiteSpace c = true) (chars (Form.description st)))
  ∧ Form.actions (handleSubmit ascii_isWhiteSpace (λ _, 3600000%Z)
                    (λ _, "GMT+0100 (CET)") None true 1700000000000
                    1700000000001 1700000000002 st) = [].
Proof.
  intros st.
  assert (H : Forall (λ c, ascii_isWhiteSpace c = true) (chars (Form.name st))
            ∨ Forall (λ c, ascii_isWhiteSpace c = true)
                (chars (Form.description st))).
  { left. repeat constructor. }
  split; [exact H|].
  destruct (handleSubmit_rejects_blank ascii_isWhiteSpace (λ _, 3600000%Z)
              (λ _, "GMT+0100 (CET)") None true 1700000000000 1700000000001
              1700000000002 st H) as [Hnone _].
  exact Hnone.
Defined.

Lemma handleSubmit_dispatches_valid_entity_witness :
  let st := Form.mkState " Buy milk " "2%" 1700000000000 1700000000000 false
              false false false in
  ¬ Forall (λ c, ascii_isWhiteSpace c = true) (chars (Form.name st))
  ∧ ¬ Forall (λ c, ascii_isWhiteSpace c = true) (chars (Form.description st))
  ∧ ∃ t,
      Form.actions (handleSubmit ascii_isWhiteSpace (λ _, 3600000%Z)
                      (λ _, "GMT+0100 (CET)") None true 1700000000000
                      1700000000001 1700000000002 st) = [AddTodo t]
      ∧ name t ≠ "" ∧ completed t = false.
Proof.
  intros st.
  assert (H1 : ¬ Forall (λ c, ascii_isWhiteSpace c = true)
                 (chars (Form.name st))).
  { intros H. apply Forall_cons in H as [_ H].
    apply Forall_cons in H as [H _]. discriminate H. }
  assert (H2 : ¬ Forall (λ c, ascii_isWhiteSpace c = true)
                 (chars (Form.description st))).
  { intros H. apply Forall_cons in H as [H _]. discriminate H. }
  split; [exact H1|]. split; [exact H2|].
  destruct (handleSubmit_dispatches_valid_entity ascii_isWhiteSpace
              (λ _, 3600000%Z) (λ _, "GMT+0100 (CET)") None true
              1700000000000 1700000000001 1700000000002 st H1 H2)
    as (t & Hact & _ & _ & Hne & _ & _ & Hc & _).
  exists t. split; [exact Hact|]. split; [exact Hne|exact Hc].
Defined.

Section FormAndStore.

Variable isWhiteSpace : ascii → bool.
Variable LocalTZA : Z → Z.
Variable zoneName : Z → string.

Local Abbreviation blank s :=
  (Forall (λ c, isWhiteSpace c = true) (chars s)).
Local Abbreviation handleSubmit :=
  (handleSubmit isWhiteSpace LocalTZA zoneName).
Local Abbreviation todoData := (todoData isWhiteSpace LocalTZA zoneName).

Lemma handleSubmit_add (onSubmit : bool) (now t1 t2 : Z) (st : Form.State) :
  ¬ blank (Form.name st) → ¬ blank (Form.description st) →
  Form.actions (handleSubmit None onSubmit now t1 t2 st)
  = [AddTodo (todoData None now st)]
  ∧ id (todoData None now st) = Number_toString now.
Proof.
  intros Hname Hdesc. split; [|done].
  apply (handleSubmit_valid isWhiteSpace LocalTZA zoneName None).
  apply andb_true_iff. split; by apply valid_field.
Qed.

(** X14. The id of an entity that the form adds is the decimal numeral of
    the clock when the button is pressed. Two adds at different clock
    readings, neither numeral being in a store with unique ids, leave unique
    ids; two adds at the same reading leave two entities with one id. *)
Theorem form_ids_follow_the_clock (s : TodoState) (now1 now2 t1 t2 : Z)
    (o1 o2 : bool) (st1 st2 : Form.State) :
  ¬ blank (Form.name st1) → ¬ blank (Form.description st1) →
  ¬ blank (Form.name st2) → ¬ blank (Form.description st2) →
  let after :=
    dispatchAll s
      (Form.actions (handleSubmit None o1 now1 t1 t2 st1)
       ++ Form.actions (handleSubmit None o2 now2 t1 t2 st2)) in
  ids (todos after)
  = ids (todos s) ++ [Number_toString now1; Number_toString now2]
  ∧ (now1 ≠ now2 → NoDup (ids (todos s)) →
     Number_toString now1 ∉ ids (todos s) →
     Number_toString now2 ∉ ids (todos s) → NoDup (ids (todos after)))
  ∧ (now1 = now2 → ¬ NoDup (ids (todos after))).
Proof.
  intros Hn1 Hd1 Hn2 Hd2 after. subst after.
  destruct (handleSubmit_add o1 now1 t1 t2 st1 Hn1 Hd1) as [-> Hid1].
  destruct (handleSubmit_add o2 now2 t1 t2 st2 Hn2 Hd2) as [-> Hid2].
  assert (Hids : ids (todos (dispatchAll s
                   ([AddTodo (todoData None now1 st1)]
                    ++ [AddTodo (todoData None now2 st2)])))
                 = ids (todos s)
                   ++ [Number_toString now1; Number_toString now2]).
  { simpl. by rewrite <- app_assoc, ids_app. }
  split; [exact Hids|]. rewrite Hids. split.
  - intros Hne Hnd Hout1 Hout2. apply NoDup_app. split; [done|]. split.
    + intros i Hi Hin. apply elem_of_cons in Hin as [->|Hin]; [done|].
      apply list_elem_of_singleton in Hin as ->. done.
    + apply NoDup_cons. split; [|apply NoDup_singleton].
      intros Hin%list_elem_of_singleton. apply Hne.
      by apply (inj (pretty : Z → string)).
  - intros -> Hnd. apply NoDup_app in Hnd as (_ & _ & Hnd).
    apply NoDup_cons in Hnd as [Hnot _]. apply Hnot. by left.
Qed.

(** X15. The Edit button opens the form for entities that are not
    completed only. A valid submit of the form that the button opened on an
    entity (with a non-empty id) dispatches an update under the same id and
    with the same [completed] flag, so the store keeps its ids and their
    order, and the new entity takes the place of the first entity with that
    id. *)
Theorem edit_keeps_id_and_place (s : TodoState) (ui : Screen.State)
    (k : nat) (t opened : Todo) (onSubmit : bool) (now t1 t2 : Z)
    (st : Form.State) :
  Screen.editingTodo (pressEdit t (handleEditComplete ui)) = Some opened →
  id t ≠ "" →
  ¬ blank (Form.name st) → ¬ blank (Form.description st) →
  todos s !! k = Some t →
  (∀ j u, j < k → todos s !! j = Some u → id u ≠ id t) →
  let out := handleSubmit (Some opened) onSubmit now t1 t2 st in
  opened = t ∧ completed t = false
  ∧ ∃ new,
      Form.actions out = [UpdateTodo new]
      ∧ id new = id t ∧ completed new = completed t
      ∧ ids (todos (dispatchAll s (Form.actions out))) = ids (todos s)
      ∧ todos (dispatchAll s (Form.actions out)) = <[k := new]> (todos s).
Proof.
  intros Hopen Hid Hname Hdesc Hk Hfirst out. subst out.
  unfold pressEdit, TodoItem.handleEdit in Hopen.
  destruct (completed t) eqn:Hc; [done|]. simpl in Hopen.
  injection Hopen as <-. split; [done|]. split; [done|].
  destruct (handleSubmit_valid isWhiteSpace LocalTZA zoneName (Some t)
              onSubmit now t1 t2 st) as [Hact _].
  { apply andb_true_iff. split; by apply valid_field. }
  exists (todoData (Some t) now st). rewrite Hact.
  assert (Hsame : id (todoData (Some t) now st) = id t).
  { simpl. by destruct (id t). }
  split; [done|]. split; [done|]. split; [done|].
  simpl. split; [apply ids_updateTodo|].
  rewrite (updateTodo_found s _ t k); [done|].
  rewrite Hsame. by apply first_match_find.
Qed.

(** X24. After an add the form is blank again, so a second press of the
    button before anything is typed dispatches nothing. *)
Theorem second_press_dispatches_nothing (onSubmit : bool)
    (now now' t1 t2 t1' t2' : Z) (st : Form.State) :
  ¬ blank (Form.name st) → ¬ blank (Form.description st) →
  let first := handleSubmit None onSubmit now t1 t2 st in
  let second := handleSubmit None onSubmit now' t1' t2' (Form.cells first) in
  (∃ t, Form.actions first = [AddTodo t])
  ∧ Form.name (Form.cells first) = ""
  ∧ Form.description (Form.cells first) = ""
  ∧ Form.actions second = []
  ∧ Form.onSubmitReached second = false.
Proof.
  intros Hname Hdesc first second. subst first second.
  assert (Hok : isNameValid isWhiteSpace st
                && isDescriptionValid isWhiteSpace st = true).
  { apply andb_true_iff. split; by apply valid_field. }
  destruct (handleSubmit_add onSubmit now t1 t2 st Hname Hdesc) as [Hact _].
  split; [by eexists|].
  assert (Hcells : Form.cells (handleSubmit None onSubmit now t1 t2 st)
                   = resetForm t1 t2 (validateInputs isWhiteSpace st).1).
  { by rewrite handleSubmit_cases, Hok. }
  rewrite Hcells. split; [done|]. split; [done|].
  by rewrite handleSubmit_invalid.
Qed.

(** X16. An entity that came from the remote adapter has an empty
    description, so a form that holds its description unchanged cannot be
    submitted: nothing is dispatched and the description error is raised. *)
Theorem fetched_entity_fails_validation (clock : nat → Z)
    (data : list Api.ApiTodo) (fetched : list Todo) (t : Todo)
    (initialTodo : option Todo) (onSubmit : bool) (now t1 t2 : Z)
    (st : Form.State) :
  fetchTodos clock (inr data) = inr fetched → t ∈ fetched →
  Form.description st = description t →
  let out := handleSubmit initialTodo onSubmit now t1 t2 st in
  Form.actions out = []
  ∧ Form.descriptionError (Form.cells out) = true.
Proof.
  intros [= <-] Ht Hdesc out. subst out.
  apply list_elem_of_lookup in Ht as [k Hk].
  rewrite list_lookup_imap in Hk.
  destruct (data !! k) as [r|]; [|done]. injection Hk as <-.
  simpl in Hdesc.
  assert (Hbad : isDescriptionValid isWhiteSpace st = false).
  { apply invalid_field. by rewrite Hdesc. }
  rewrite handleSubmit_invalid by (apply andb_false_iff; by right).
  simpl. by rewrite Hbad.
Qed.

End FormAndStore.

Ltac not_blank :=
  let H := fresh "H" in
  intros H; cbv [formMilk formBread Form.name Form.description] in H;
  cbn [String.list_ascii_of_string] in H;
  repeat (let Hc := fresh "Hc" in
          apply Forall_cons in H as [Hc H]; try discriminate Hc).

Lemma form_ids_follow_the_clock_witness :
  ¬ Forall (λ c, ascii_isWhiteSpace c = true) (chars (Form.name formMilk))
  ∧ ¬ Forall (λ c, ascii_isWhiteSpace c = true)
        (chars (Form.description formMilk))
  ∧ ¬ Forall (λ c, ascii_isWhiteSpace c = true) (chars (Form.name formBread))
  ∧ ¬ Forall (λ c, ascii_isWhiteSpace c = true)
        (chars (Form.description formBread))
  ∧ ids (todos (dispatchAll (storeOf [milk])
      (Form.actions (handleSubmit ascii_isWhiteSpace oneHourEast zoneCET None
                       true 1700000000000 0 0 formMilk)
       ++ Form.actions (handleSubmit ascii_isWhiteSpace oneHourEast zoneCET
                          None true 1700000000001 0 0 formBread))))
    = ids (todos (storeOf [milk]))
      ++ [Number_toString 1700000000000; Number_toString 1700000000001].
Proof.
  assert (H1 : ¬ Forall (λ c, ascii_isWhiteSpace c = true)
                 (chars (Form.name formMilk))) by not_blank.
  assert (H2 : ¬ Forall (λ c, ascii_isWhiteSpace c = true)
                 (chars (Form.description formMilk))) by not_blank.
  assert (H3 : ¬ Forall (λ c, ascii_isWhiteSpace c = true)
                 (chars (Form.name formBread))) by not_blank.
  assert (H4 : ¬ Forall (λ c, ascii_isWhiteSpace c = true)
                 (chars (Form.description formBread))) by not_blank.
  split; [exact H1|]. split; [exact H2|]. split; [exact H3|].
  split; [exact H4|].
  destruct (form_ids_follow_the_clock ascii_isWhiteSpace oneHourEast zoneCET
              (storeOf [milk]) 1700000000000 1700000000001 0 0 true true
              formMilk formBread H1 H2 H3 H4) as [Hids _].
  exact Hids.
Defined.

Lemma edit_keeps_id_and_place_witness :
  Screen.editingTodo (pressEdit bread (handleEditComplete Screen.initial))
  = Some bread
  ∧ id bread ≠ ""
  ∧ ¬ Forall (λ c, ascii_isWhiteSpace c = true) (chars (Form.name formBread))
  ∧ ¬ Forall (λ c, ascii_isWhiteSpace c = true)
        (chars (Form.description formBread))
  ∧ todos (storeOf [milk; bread]) !! 1 = Some bread
  ∧ ∃ new,
      Form.actions (handleSubmit ascii_isWhiteSpace oneHourEast zoneCET
                      (Some bread) true 1700000000000 0 0 formBread)
      = [UpdateTodo new]
      ∧ id new = id bread.
Proof.
  assert (H3 : ¬ Forall (λ c, ascii_isWhiteSpace c = true)
                 (chars (Form.name formBread))) by not_blank.
  assert (H4 : ¬ Forall (λ c, ascii_isWhiteSpace c = true)
                 (chars (Form.description formBread))) by not_blank.
  assert (Hid : id bread ≠ "") by discriminate.
  assert (Hfirst : ∀ j u, j < 1 → todos (storeOf [milk; bread]) !! j = Some u
                          → id u ≠ id bread).
  { intros [|j] u Hj Hu; [|lia]. injection Hu as <-. discriminate. }
  split; [reflexivity|]. split; [exact Hid|]. split; [exact H3|].
  split; [exact H4|]. split; [reflexivity|].
  destruct (edit_keeps_id_and_place ascii_isWhiteSpace oneHourEast zoneCET
              (storeOf [milk; bread]) Screen.initial 1 bread bread true
              1700000000000 0 0 formBread eq_refl Hid H3 H4 eq_refl Hfirst)
    as (_ & _ & new & Hact & Hsame & _).
  exists new. split; [exact Hact|exact Hsame].
Defined.

Lemma second_press_dispatches_nothing_witness :
  ¬ Forall (λ c, ascii_isWhiteSpace c = true) (chars (Form.name formMilk))
  ∧ ¬ Forall (λ c, ascii_isWhiteSpace c = true)
        (chars (Form.description formMilk))
  ∧ Form.actions
      (handleSubmit ascii_isWhiteSpace oneHourEast zoneCET None true
         1700000000000 0 0
         (Form.cells (handleSubmit ascii_isWhiteSpace oneHourEast zoneCET
                        None true 1700000000000 0 0 formMilk))) = [].
Proof.
  assert (H1 : ¬ Forall (λ c, ascii_isWhiteSpace c = true)
                 (chars (Form.name formMilk))) by not_blank.
  assert (H2 : ¬ Forall (λ c, ascii_isWhiteSpace c = true)
                 (chars (Form.description formMilk))) by not_blank.
  split; [exact H1|]. split; [exact H2|].
  destruct (second_press_dispatches_nothing ascii_isWhiteSpace oneHourEast
              zoneCET true 1700000000000 1700000000000 0 0 0 0 formMilk
              H1 H2) as (_ & _ & _ & Hnone & _).
  exact Hnone.
Defined.

Lemma fetched_entity_fails_validation_witness :
  let fetched := [ {| id := "1"; name := "delectus aut autem";
                      description := ""; dueDate := "2023-11-14";
                      dueTime := "00:00"; completed := false |} ] in
  let st := Form.mkState "delectus aut autem" "" 1699920000000 946681200000
              false false false false in
  fetchTodos (λ _, 1700000000000%Z)
    (inr [Api.mkApiTodo 1 1 "delectus aut autem" false]) = inr fetched
  ∧ Form.actions (handleSubmit ascii_isWhiteSpace oneHourEast zoneCET
                    (head fetched) true 1700000000000 0 0 st) = [].
Proof.
  intros fetched st.
  assert (Hf : fetchTodos (λ _, 1700000000000%Z)
                 (inr [Api.mkApiTodo 1 1 "delectus aut autem" false])
               = inr fetched) by (vm_compute; reflexivity).
  split; [exact Hf|].
  destruct (fetched_entity_fails_validation ascii_isWhiteSpace oneHourEast
              zoneCET (λ _, 1700000000000%Z)
              [Api.mkApiTodo 1 1 "delectus aut autem" false] fetched
              {| id := "1"; name := "delectus aut autem"; description := "";
                 dueDate := "2023-11-14"; dueTime := "00:00";
                 completed := false |}
              (head fetched) true 1700000000000 0 0 st Hf) as [Hnone _];
    [by left|reflexivity|].
  exact Hnone.
Defined.

(** ** The list screen: sort menu, view and counters *)

(** X17. A press in the sort menu leaves the pressed field selected and the
    menu closed, and touches neither the query nor the entity being edited.
    On the field already selected it turns the order round, so two presses
    give the order back; on another field the order is ascending. *)
Theorem handleSort_presses (f : SortOption) (ui : Screen.State) :
  Screen.sortBy (handleSort f ui) = f
  ∧ Screen.showSortMenu (handleSort f ui) = false
  ∧ Screen.searchQuery (handleSort f ui) = Screen.searchQuery ui
  ∧ Screen.editingTodo (handleSort f ui) = Screen.editingTodo ui
  ∧ (Screen.sortBy ui = f →
     Screen.sortOrder (handleSort f ui) ≠ Screen.sortOrder ui
     ∧ Screen.sortOrder (handleSort f (handleSort f ui))
       = Screen.sortOrder ui)
  ∧ (Screen.sortBy ui ≠ f →
     Screen.sortOrder (handleSort f ui) = asc
     ∧ Screen.sortOrder (handleSort f (handleSort f ui)) = desc).
Proof.
  unfold handleSort.
  destruct (decide (Screen.sortBy ui = f)) as [Heq|Hne]; simpl.
  - rewrite !decide_True by done. simpl.
    repeat split; try done; try (by destruct (Screen.sortOrder ui)).
  - rewrite !decide_True by done. simpl. repeat split; done.
Qed.

Lemma handleSort_presses_witness :
  Screen.sortBy Screen.initial = by_date
  ∧ Screen.sortOrder (handleSort by_date Screen.initial) = desc
  ∧ Screen.sortOrder (handleSort by_date (handleSort by_date Screen.initial))
    = asc.
Proof.
  destruct (handleSort_presses by_date Screen.initial)
    as (_ & _ & _ & _ & Hsame & _).
  destruct (Hsame eq_refl) as [_ Hback].
  split; [reflexivity|]. split; [reflexivity|exact Hback].
Defined.

Lemma List_filter_Permutation {A} (f : A → bool) (l l' : list A) :
  l ≡ₚ l' → List.filter f l ≡ₚ List.filter f l'.
Proof.
  induction 1 as [|x l l' _ IH|x y l|l l' l'' _ IH1 _ IH2]; simpl.
  - done.
  - destruct (f x); [by constructor|done].
  - destruct (f x), (f y); try done. apply perm_swap.
  - by etrans.
Qed.

Lemma List_filter_partition {A} (f : A → bool) (l : list A) :
  length l
  = length (List.filter f l) + length (List.filter (λ x, negb (f x)) l).
Proof.
  induction l as [|x l IH]; simpl; [done|].
  destruct (f x); simpl; lia.
Qed.

Section ViewProperties.

Variable toLowerCase : string → string.
Variable localeCompare : string → string → Z.
Variable Array_sort : (Todo → Todo → option Z) → list Todo → list Todo.

(** [sort] rearranges the array it is given. *)
Hypothesis Array_sort_permutes : ∀ compare l, Array_sort compare l ≡ₚ l.

Local Abbreviation view todos ui :=
  (sortedAndFilteredTodos toLowerCase localeCompare Array_sort todos ui).

Lemma view_Permutation (todos : list Todo) (ui : Screen.State) :
  view todos ui ≡ₚ filteredTodos toLowerCase todos (Screen.searchQuery ui).
Proof. apply Array_sort_permutes. Qed.


(** X19. The three counters above the list add up: completed and pending
    make the total. They count the entities that match the query and do not
    depend on the sort field or order. *)
Theorem counters_add_up (todos : list Todo) (ui : Screen.State) :
  totalCount (view todos ui)
  = completedCount (view todos ui) + pendingCount (view todos ui)
  ∧ totalCount (view todos ui)
    = length (filteredTodos toLowerCase todos (Screen.searchQuery ui))
  ∧ completedCount (view todos ui)
    = completedCount
        (filteredTodos toLowerCase todos (Screen.searchQuery ui))
  ∧ pendingCount (view todos ui)
    = pendingCount (filteredTodos toLowerCase todos (Screen.searchQuery ui)).
Proof.
  pose proof (view_Permutation todos ui) as Hperm.
  unfold totalCount, completedCount, pendingCount.
  split; [apply List_filter_partition|].
  split; [by rewrite Hperm|].
  split; apply Permutation_length, List_filter_Permutation, Hperm.
Qed.

End ViewProperties.


Lemma counters_add_up_witness :
  (∀ (compare : Todo → Todo → option Z) (l : list Todo),
     (λ _ l, l) compare l ≡ₚ l)
  ∧ totalCount (sortedAndFilteredTodos ascii_toLowerCase (λ _ _, 0%Z)
                  (λ _ l, l) [milk; milkChanged; bread] Screen.initial)
    = completedCount (sortedAndFilteredTodos ascii_toLowerCase (λ _ _, 0%Z)
                        (λ _ l, l) [milk; milkChanged; bread] Screen.initial)
      + pendingCount (sortedAndFilteredTodos ascii_toLowerCase (λ _ _, 0%Z)
                        (λ _ l, l) [milk; milkChanged; bread] Screen.initial).
Proof.
  assert (Hsort : ∀ (compare : Todo → Todo → option Z) (l : list Todo),
                    (λ _ l, l) compare l ≡ₚ l) by done.
  split; [exact Hsort|].
  destruct (counters_add_up ascii_toLowerCase (λ _ _, 0%Z) (λ _ l, l) Hsort
              [milk; milkChanged; bread] Screen.initial) as [Hsum _].
  exact Hsum.
Defined.

(** ** More on the filter *)

Lemma append_assoc (a b c : string) : (a +:+ b) +:+ c = a +:+ (b +:+ c).
Proof.
  induction a as [|x a IH]; [done|]. by rewrite !append_String, IH.
Qed.

Lemma includes_trans (s mid sub : string) :
  includes s mid = true → includes mid sub = true → includes s sub = true.
Proof.
  rewrite !includes_spec.
  intros (b & a & ->) (b' & a' & ->).
  exists (b +:+ b'), (a' +:+ a). by rewrite !append_assoc.
Qed.

Lemma List_filter_mono {A} (f g : A → bool) (l : list A) :
  (∀ x, f x = true → g x = true) →
  sublist (List.filter f l) (List.filter g l)
  ∧ List.filter f (List.filter g l) = List.filter f l.
Proof.
  intros Hfg. induction l as [|x l [IH1 IH2]]; simpl; [by split|].
  destruct (f x) eqn:Hf.
  - rewrite (Hfg x Hf). simpl. rewrite Hf, IH2. split; [by constructor|done].
  - destruct (g x); simpl; rewrite ?Hf;
      (split; [first [done | by constructor]|done]).
Qed.

Lemma filteredTodos_sublist_of_shorter (toLowerCase : string → string)
    (todos : list Todo) (shorter longer : string) :
  includes (toLowerCase longer) (toLowerCase shorter) = true →
  sublist (filteredTodos toLowerCase todos longer)
          (filteredTodos toLowerCase todos shorter).
Proof.
  intros Hinc. unfold filteredTodos. apply List_filter_mono.
  intros t. unfold matchesQuery. rewrite !orb_true_iff.
  intros [[[H|H]|H]|H]; eauto using includes_trans.
Qed.

(** X20. A query that contains another (both lower-cased) selects fewer
    entities: its results are among the results of the shorter query, in the
    same order, and searching for it within those results finds the same as
    searching the whole collection. *)
Theorem filteredTodos_narrows (toLowerCase : string → string)
    (todos : list Todo) (shorter longer : string) :
  includes (toLowerCase longer) (toLowerCase shorter) = true →
  sublist (filteredTodos toLowerCase todos longer)
          (filteredTodos toLowerCase todos shorter)
  ∧ filteredTodos toLowerCase (filteredTodos toLowerCase todos shorter) longer
    = filteredTodos toLowerCase todos longer.
Proof.
  intros Hinc. unfold filteredTodos. apply List_filter_mono.
  intros t. unfold matchesQuery. rewrite !orb_true_iff.
  intros [[[H|H]|H]|H]; eauto using includes_trans.
Qed.

Lemma filteredTodos_narrows_witness :
  includes (ascii_toLowerCase "Milk") (ascii_toLowerCase "MI") = true
  ∧ sublist (filteredTodos ascii_toLowerCase [milk; bread] "Milk")
            (filteredTodos ascii_toLowerCase [milk; bread] "MI").
Proof.
  assert (H : includes (ascii_toLowerCase "Milk") (ascii_toLowerCase "MI")
              = true) by reflexivity.
  split; [exact H|].
  destruct (filteredTodos_narrows ascii_toLowerCase [milk; bread] "MI" "Milk"
              H) as [Hsub _].
  exact Hsub.
Defined.

Lemma ascii_lower_idemp (c : ascii) :
  ascii_lower (ascii_lower c) = ascii_lower c.
Proof. by destruct c as [[] [] [] [] [] [] [] []]. Qed.

Lemma ascii_toLowerCase_idemp (s : string) :
  ascii_toLowerCase (ascii_toLowerCase s) = ascii_toLowerCase s.
Proof.
  induction s as [|c s IH]; simpl; [done|].
  by rewrite ascii_lower_idemp, IH.
Qed.

Lemma ascii_toLowerCase_append (a b : string) :
  ascii_toLowerCase (a +:+ b) = ascii_toLowerCase a +:+ ascii_toLowerCase b.
Proof.
  induction a as [|c a IH]; [done|].
  rewrite append_String. simpl. by rewrite IH, append_String.
Qed.

Lemma isASCII_append (a b : string) :
  isASCII (a +:+ b) = isASCII a && isASCII b.
Proof.
  induction a as [|c a IH]; [done|].
  rewrite append_String. simpl. by rewrite IH, andb_assoc.
Qed.

Lemma isASCII_ascii_lower (c : ascii) :
  (N_of_ascii c <? 128)%N = true →
  (N_of_ascii (ascii_lower c) <? 128)%N = true.
Proof. by destruct c as [[] [] [] [] [] [] [] []]. Qed.

Lemma isASCII_ascii_toLowerCase (s : string) :
  isASCII s = true → isASCII (ascii_toLowerCase s) = true.
Proof.
  induction s as [|c s IH]; [done|]. simpl.
  intros [Hc Hs]%andb_true_iff.
  by rewrite isASCII_ascii_lower, IH.
Qed.

(** X21. On ASCII text [toLowerCase] turns the letters A to Z into a to z
    and leaves the other characters. For a query of ASCII characters the
    search then does not look at the case of the query: the query and its
    lower-cased form select the same entities. Typing more ASCII characters,
    before or after the query, never brings an entity back. The fields of
    the entities may hold any text. *)
Theorem ascii_search_ignores_case (toLowerCase : string → string)
    (todos : list Todo) (query before after : string) :
  (∀ s, isASCII s = true → toLowerCase s = ascii_toLowerCase s) →
  isASCII query = true → isASCII before = true → isASCII after = true →
  filteredTodos toLowerCase todos (toLowerCase query)
  = filteredTodos toLowerCase todos query
  ∧ sublist
      (filteredTodos toLowerCase todos (before +:+ query +:+ after))
      (filteredTodos toLowerCase todos query).
Proof.
  intros Hascii Hq Hb Ha. split.
  - unfold filteredTodos. rewrite (Hascii query Hq).
    rewrite (Hascii _ (isASCII_ascii_toLowerCase query Hq)).
    by rewrite ascii_toLowerCase_idemp.
  - apply filteredTodos_sublist_of_shorter.
    rewrite (Hascii query Hq), (Hascii (before +:+ query +:+ after)).
    + rewrite !ascii_toLowerCase_append. apply includes_spec. eauto.
    + rewrite !isASCII_append, Hq, Hb, Ha. done.
Qed.

Lemma ascii_search_ignores_case_witness :
  (∀ s, isASCII s = true → ascii_toLowerCase s = ascii_toLowerCase s)
  ∧ isASCII "MILK" = true ∧ isASCII "buy " = true ∧ isASCII "!" = true
  ∧ filteredTodos ascii_toLowerCase [milk; bread] (ascii_toLowerCase "MILK")
    = filteredTodos ascii_toLowerCase [milk; bread] "MILK"
  ∧ sublist
      (filteredTodos ascii_toLowerCase [milk; bread]
         ("buy " +:+ "MILK" +:+ "!"))
      (filteredTodos ascii_toLowerCase [milk; bread] "MILK").
Proof.
  assert (H : ∀ s, isASCII s = true
                   → ascii_toLowerCase s = ascii_toLowerCase s) by done.
  split; [exact H|]. split; [reflexivity|]. split; [reflexivity|].
  split; [reflexivity|].
  exact (ascii_search_ignores_case ascii_toLowerCase [milk; bread] "MILK"
           "buy " "!" H eq_refl eq_refl eq_refl).
Defined.

(** ** Stored dates read back *)

Section DateRoundTrip.

Local Open Scope Z_scope.

Lemma digitValue_digit (n : Z) : digitValue (digit n) = n mod 10.
Proof.
  unfold digit, digitValue.
  pose proof (Z.mod_pos_bound n 10 eq_refl) as Hb.
  set (r := n mod 10) in *. clearbody r.
  assert (r = 0 ∨ r = 1 ∨ r = 2 ∨ r = 3 ∨ r = 4 ∨ r = 5 ∨ r = 6 ∨ r = 7
          ∨ r = 8 ∨ r = 9) as Hr by lia.
  repeat destruct Hr as [->|Hr]; try subst r; reflexivity.
Qed.

Lemma four_digits (y : Z) :
  0 ≤ y ≤ 9999 →
  1000 * ((y / 10 / 10 / 10) mod 10) + 100 * ((y / 10 / 10) mod 10)
  + 10 * ((y / 10) mod 10) + y mod 10 = y.
Proof. intros Hy. Z.div_mod_to_equations. lia. Qed.

Lemma two_digits (m : Z) :
  0 ≤ m ≤ 99 → 10 * ((m / 10) mod 10) + m mod 10 = m.
Proof. intros Hm. Z.div_mod_to_equations. lia. Qed.

(** Reading a date that was printed from in-range fields. *)
Lemma Date_parse_printed (y m d : Z) :
  0 ≤ y ≤ 9999 → 0 ≤ m ≤ 99 → 0 ≤ d ≤ 99 →
  Date_parse (pad 4 y +:+ "-" +:+ pad 2 m +:+ "-" +:+ pad 2 d)
  = if (1 <=? m) && (m <=? 12) && (1 <=? d)
       && (d <=? MonthStart m (DaysInYear y - 365)
                 - MonthStart (m - 1) (DaysInYear y - 365))
    then Some (MakeDay y (m - 1) d * msPerDay)
    else None.
Proof.
  intros Hy Hm Hd. string_normal. unfold Date_parse, is_YYYY_MM_DD.
  cbn [String.list_ascii_of_string]. cbv zeta.
  rewrite !digit_isDigit, !digitValue_digit.
  rewrite (four_digits y Hy), (two_digits m Hm), (two_digits d Hd).
  reflexivity.
Qed.

(** The fields of a time value name its day. *)
Lemma MakeDay_fields (t : Z) :
  MakeDay (YearFromTime t) (MonthFromTime t) (DateFromTime t) = Day t
  ∧ DateFromTime t
    ≤ MonthStart (MonthFromTime t + 1) (InLeapYear t)
      - MonthStart (MonthFromTime t) (InLeapYear t).
Proof.
  pose proof (DayWithinYear_range t) as Hd.
  unfold MakeDay, DateFromTime, MonthFromTime, DayWithinYear, InLeapYear
    in *.
  destruct (DaysInYear_cases (YearFromTime t)) as [Hy|Hy]; rewrite Hy in *;
    repeat (match goal with
            | |- context [?a <? ?b] => destruct (Z.ltb_spec a b)
            end); simpl; lia.
Qed.

Lemma Day_of_midnight (d : Z) : Day (d * msPerDay) = d.
Proof. unfold Day, msPerDay. by rewrite Z.div_mul. Qed.

Lemma isoDate_of_midnight (t : Z) : isoDate (Day t * msPerDay) = isoDate t.
Proof.
  unfold isoDate, DateFromTime, MonthFromTime, InLeapYear, DayWithinYear,
    YearFromTime.
  by rewrite !Day_of_midnight.
Qed.

Lemma Date_parse_isoDate (t : Z) :
  -62167219200000 ≤ t < 253402300800000 →
  Date_parse (isoDate t) = Some (Day t * msPerDay).
Proof.
  intros Ht. pose proof (YearFromTime_four_digits t Ht) as Hy.
  pose proof (MonthFromTime_range t) as Hm.
  pose proof (DateFromTime_range t) as Hd.
  destruct (MakeDay_fields t) as [Hday Hlast].
  unfold isoDate, isoYear.
  destruct (Z.leb_spec 0 (YearFromTime t)); [|lia].
  destruct (Z.leb_spec (YearFromTime t) 9999); [|lia]. cbn [andb].
  rewrite Date_parse_printed by lia.
  replace (MonthFromTime t + 1 - 1) with (MonthFromTime t) by lia.
  fold (InLeapYear t). rewrite Hday.
  destruct (Z.leb_spec 1 (MonthFromTime t + 1)); [|lia].
  destruct (Z.leb_spec (MonthFromTime t + 1) 12); [|lia].
  destruct (Z.leb_spec 1 (DateFromTime t)); [|lia].
  destruct (Z.leb_spec (DateFromTime t)
              (MonthStart (MonthFromTime t + 1) (InLeapYear t)
               - MonthStart (MonthFromTime t) (InLeapYear t))); [|lia].
  reflexivity.
Qed.

(** X22. A date stored by the form or by the remote adapter reads back as
    midnight UTC of the same day, and printing that gives the stored text
    again: a form opened on an entity starts with that midnight in its date
    cell, and a submit with the cell untouched stores the same [dueDate].
    (From the year 0 to the year 9999.) *)
Theorem stored_date_round_trip (isWhiteSpace : ascii → bool)
    (LocalTZA : Z → Z) (zoneName : Z → string) (todo : Todo) (t now now' : Z)
    (st : Form.State) :
  -62167219200000 ≤ t < 253402300800000 →
  dueDate todo = split_head "T" (toISOString t) →
  ∃ midnight,
    initialDate (Some todo) now = Some midnight
    ∧ midnight = Day t * msPerDay
    ∧ midnight ≤ t < midnight + msPerDay
    ∧ (Form.date st = midnight →
       dueDate (todoData isWhiteSpace LocalTZA zoneName (Some todo) now' st)
       = dueDate todo).
Proof.
  intros Ht Hstored. exists (Day t * msPerDay).
  rewrite split_T_toISOString in Hstored. simpl. rewrite Hstored.
  split; [by apply Date_parse_isoDate|]. split; [done|]. split.
  - unfold Day, msPerDay. Z.div_mod_to_equations. lia.
  - intros ->. rewrite split_T_toISOString. apply isoDate_of_midnight.
Qed.

(** X23. Sorting by date compares stored dates by their day: for two
    entities whose [dueDate] was stored from the time values [t1] and [t2],
    the comparison is the difference of the two midnights, negated for the
    descending order; it is zero exactly when the two texts are equal. *)
Theorem date_comparison_is_chronological
    (localeCompare : string → string → Z) (a b : Todo) (t1 t2 : Z) :
  -62167219200000 ≤ t1 < 253402300800000 →
  -62167219200000 ≤ t2 < 253402300800000 →
  dueDate a = split_head "T" (toISOString t1) →
  dueDate b = split_head "T" (toISOString t2) →
  compareTodos localeCompare by_date asc a b
  = Some ((Day t1 - Day t2) * msPerDay)
  ∧ compareTodos localeCompare by_date desc a b
    = Some ((Day t2 - Day t1) * msPerDay)
  ∧ (dueDate a = dueDate b ↔ Day t1 = Day t2).
Proof.
  intros Ht1 Ht2 Ha Hb. rewrite split_T_toISOString in Ha, Hb.
  unfold compareTodos, comparison, getTime. rewrite Ha, Hb.
  rewrite !Date_parse_isoDate by done. simpl.
  split; [f_equal; lia|]. split; [f_equal; lia|].
  split.
  - intros Heq. apply (f_equal Date_parse) in Heq.
    rewrite !Date_parse_isoDate in Heq by done.
    injection Heq. unfold msPerDay. lia.
  - intros Heq. by rewrite <- (isoDate_of_midnight t1), Heq,
      isoDate_of_midnight.
Qed.

End DateRoundTrip.

Lemma stored_date_round_trip_witness :
  (-62167219200000 ≤ 1704067200000 < 253402300800000)%Z
  ∧ dueDate milk = split_head "T" (toISOString 1704067200000)
  ∧ ∃ midnight,
      initialDate (Some milk) 1700000000000 = Some midnight
      ∧ midnight = (Day 1704067200000 * msPerDay)%Z.
Proof.
  assert (H : (-62167219200000 ≤ 1704067200000 < 253402300800000)%Z) by lia.
  assert (Ha : dueDate milk = split_head "T" (toISOString 1704067200000))
    by (vm_compute; reflexivity).
  split; [exact H|]. split; [exact Ha|].
  destruct (stored_date_round_trip ascii_isWhiteSpace oneHourEast zoneCET
              milk 1704067200000 1700000000000 1700000000000 formMilk H Ha)
    as (midnight & Hget & Hmid & _).
  exists midnight. split; [exact Hget|exact Hmid].
Defined.

Lemma date_comparison_is_chronological_witness :
  (-62167219200000 ≤ 1704067200000 < 253402300800000)%Z
  ∧ (-62167219200000 ≤ 1704153600000 < 253402300800000)%Z
  ∧ dueDate milk = split_head "T" (toISOString 1704067200000)
  ∧ dueDate bread = split_head "T" (toISOString 1704153600000)
  ∧ compareTodos (λ _ _, 0%Z) by_date asc milk bread
    = Some ((Day 1704067200000 - Day 1704153600000) * msPerDay)%Z.
Proof.
  assert (H1 : (-62167219200000 ≤ 1704067200000 < 253402300800000)%Z)
    by lia.
  assert (H2 : (-62167219200000 ≤ 1704153600000 < 253402300800000)%Z)
    by lia.
  assert (Ha : dueDate milk = split_head "T" (toISOString 1704067200000))
    by (vm_compute; reflexivity).
  assert (Hb : dueDate bread = split_head "T" (toISOString 1704153600000))
    by (vm_compute; reflexivity).
  split; [exact H1|]. split; [exact H2|]. split; [exact Ha|].
  split; [exact Hb|].
  destruct (date_comparison_is_chronological (λ _ _, 0%Z) milk bread
              1704067200000 1704153600000 H1 H2 Ha Hb) as [Hasc _].
  exact Hasc.
Defined.

(** ** A fetch with other actions in between *)

(** X25. Whatever the rest of the application dispatches while the fetch is
    in flight, the callback only appends: after a success the collection is
    the one those actions left, followed by the fetched entities whose id it
    does not hold; after a failure it is the one those actions left. Either
    way the loading flag ends cleared. *)
Theorem fetch_keeps_concurrent_changes (env : list Action) (s : TodoState) :
  let resumed := dispatchAll (setError (setLoading s true) None) env in
  (∀ fetchedTodos,
     let final := store (runFetch env (inr fetchedTodos) s).1 in
     todos final
     = todos resumed
       ++ filter (λ t, id t ∉ ids (todos resumed)) fetchedTodos
     ∧ error final = error resumed
     ∧ isLoading final = false)
  ∧ (∀ err,
       let final := store (runFetch env (inl err) s).1 in
       todos final = todos resumed
       ∧ error final = Some (failureMessage err)
       ∧ isLoading final = false).
Proof.
  intros resumed.
  destruct (handleFetchTodos_interleaved env s) as [Hok Hfail]. split.
  - intros fetchedTodos final. subst final. rewrite Hok. simpl.
    split; [apply (mergeTodos_todos resumed)|done].
  - intros err final. subst final. by rewrite Hfail.
Qed.
